(** * fcd: the x86_64 System V calling convention (x86_64_systemv.cpp)

    A shallow embedding of [CallingConvention_x86_64_systemv]: the
    applicability test [matches], the static classification
    [analyzeFunctionType] with its helper [addEntriesForType], and the
    dataflow analysis [analyzeFunction] over the use lists of a lifted
    function. *)

From Stdlib Require Import String Ascii.
From stdpp Require Import base numbers option list strings.

Local Open Scope string_scope.
Local Open Scope list_scope.
Local Open Scope N_scope.
Set Warnings "-register-all".

(** ** Failures

    A failed [assert] (from <cassert> or from LLVM's [cast]) stops the
    process; [std::string::substr] throws when its position lies past
    the end of the string. *)

Inductive Failure :=
| AssertionFailure
| OutOfRange.

Inductive Result (A : Type) :=
| Ok (a : A)
| Fail (e : Failure).
Arguments Ok {A} a.
Arguments Fail {A} e.

Definition bindR {A B} (m : Result A) (k : A → Result B) : Result B :=
  match m with
  | Ok a => k a
  | Fail e => Fail e
  end.

Notation "'do' x <~ m ; k" := (bindR m (fun x => k))
  (at level 10, x name, m at level 100, k at level 200).
Notation "'assert!' c ; k" := (if c then k else Fail AssertionFailure)
  (at level 10, c at level 100, k at level 200).

(** ** LLVM types, as far as the convention looks at them *)

Inductive LType :=
| VoidTy
| HalfTy
| FloatTy
| DoubleTy
| X86_FP80Ty
| LabelTy
| MetadataTy
| IntegerType (bitWidth : N)
| PointerType (pointee : LType)
| StructType (name : option string) (elements : list LType)
| ArrayType (numElements : N) (element : LType)
| VectorType (numElements : N) (element : LType)
| FunctionTy (ret : LType) (args : list LType).

Record FunctionType := {
  getReturnType : LType;
  params : list LType
}.

(** [Type::getStructName]: [cast<StructType>(this)->getName()]; both the
    cast and [getName] on a literal struct are assertions. *)
Definition getStructName (t : LType) : Result string :=
  match t with
  | StructType (Some n) _ => Ok n
  | _ => Fail AssertionFailure
  end.

Definition returnRegisters : list string := ["rax"; "rdx"].
Definition parameterRegisters : list string :=
  ["rdi"; "rsi"; "rdx"; "rcx"; "r8"; "r9"].

(** ** std::string *)

(** [s.substr(pos)]: the characters from [pos] to the end;
    [std::out_of_range] when [pos > s.size()]. *)
Fixpoint substr (s : string) (pos : nat) {struct pos} : Result string :=
  match pos with
  | O => Ok s
  | S p =>
      match s with
      | String _ rest => substr rest p
      | EmptyString => Fail OutOfRange
      end
  end.

(** [CallingConvention_x86_64_systemv::matches], on the two strings it
    reads: [target.targetName()] and [executable.getExecutableType()],
    both [std::string]. The right operand of [&&] is evaluated only when
    the left one holds. *)
Definition matches (targetName executableType : string) : Result bool :=
  do t <~ substr targetName 3;
  if String.eqb t "x86"
  then do e <~ substr executableType 6; Ok (String.eqb e "ELF 64")
  else Ok false.

Definition getName : string := "x86_64/SystemV".

(** ** Values of the IR

    An operand is an argument of the function, the result of the
    instruction at some index of the body, a [ConstantInt] (its bit width
    and its value read unsigned), or anything else. *)

Inductive Value :=
| VArgument (n : nat)
| VInstruction (n : nat)
| VConstantInt (bitWidth : N) (value : N)
| VOther (n : nat).

Inductive BinaryOps := Add | Sub | Mul | And | Or | Xor | Shl | LShr | AShr.

Inductive Instruction :=
| GetElementPtrInst (pointer : Value) (indices : list Value)
| LoadInst (pointer : Value)
| StoreInst (value pointer : Value)
| BinaryOperator (op : BinaryOps) (lhs rhs : Value)
| CastInst (operand : Value) (dest : LType)
| CallInst (callee : Value) (arguments : list Value)
| ReturnInst (operand : option Value)
| OtherInst (operands : list Value).

Record Function := {
  arguments : list LType;
  body : list Instruction
}.

#[global] Instance Value_eq_dec : EqDecision Value.
Proof. solve_decision. Defined.

(** ** Use lists

    A [Use] is one operand slot: [get] is the value that is used (the
    operand), [getUser] the instruction that has the operand. The use list
    of [v] holds one [Use] per operand slot that refers to [v], so [get]
    of each of them is [v] itself. The list is given in body order; LLVM
    keeps it in an order of its own, and the analysis only collects
    entries from it. *)

Record Use := { get : Value; getUser : Value }.

Definition getOperands (i : Instruction) : list Value :=
  match i with
  | GetElementPtrInst p idx => p :: idx
  | LoadInst p => [p]
  | StoreInst v p => [v; p]
  | BinaryOperator _ l r => [l; r]
  | CastInst v _ => [v]
  | CallInst c args => args ++ [c]
  | ReturnInst o => option_list o
  | OtherInst ops => ops
  end.

Definition uses (f : Function) (v : Value) : list Use :=
  '(n, i) ← imap pair (body f);
  op ← getOperands i;
  if decide (op = v) then [{| get := v; getUser := VInstruction n |}] else [].

Definition instructionAt (f : Function) (v : Value) : option Instruction :=
  match v with
  | VInstruction n => body f !! n
  | _ => None
  end.

Definition isGetElementPtrInst (i : Instruction) : bool :=
  match i with GetElementPtrInst _ _ => true | _ => false end.
Definition isLoadInst (i : Instruction) : bool :=
  match i with LoadInst _ => true | _ => false end.
Definition isStoreInst (i : Instruction) : bool :=
  match i with StoreInst _ _ => true | _ => false end.

(** [dyn_cast<T>(v)]: [v] itself when it is an instruction of class [T]. *)
Definition dyn_cast (T : Instruction → bool) (f : Function) (v : Value)
  : option Value :=
  match instructionAt f v with
  | Some i => if T i then Some v else None
  | None => None
  end.

Definition isa (T : Instruction → bool) (f : Function) (v : Value) : bool :=
  match dyn_cast T f v with Some _ => true | None => false end.

(** [match(v, m_Add(m_Value(), m_ConstantInt(offset)))]: [v] is an [add]
    whose second operand is a [ConstantInt]; gives the constant's width
    and value. *)
Definition match_Add_ConstantInt (f : Function) (v : Value) : option (N * N) :=
  match instructionAt f v with
  | Some (BinaryOperator Add _ (VConstantInt w c)) => Some (w, c)
  | _ => None
  end.

(** [ConstantInt::getLimitedValue()]: the value, or [UINT64_MAX] when it
    is larger. *)
Definition getLimitedValue (c : N * N) : N := N.min c.2 (2 ^ 64 - 1).

(** conversion of a [uint64_t] to [make_signed<uint64_t>::type] *)
Definition make_signed (x : N) : Z :=
  if x <? 2 ^ 63 then Z.of_N x else (Z.of_N x - 2 ^ 64)%Z.

(** ** MemorySSA *)

Inductive MemoryAccess :=
| LiveOnEntryDef
| MemoryDef (inst : nat)
| MemoryPhi (block : nat).

Definition isLiveOnEntryDef (a : MemoryAccess) : bool :=
  match a with LiveOnEntryDef => true | _ => false end.

(** [getDefiningAccess load] is
    [mssa.getMemoryAccess(load)->getDefiningAccess()]. *)
Record MemorySSA := { getDefiningAccess : Value → MemoryAccess }.

(** ** The target register model ([TargetInfo]) *)

Class TargetInfo := {
  (** the identity of a [const TargetRegisterInfo*] *)
  TargetRegisterInfo : Type;
  TargetRegisterInfo_eq_dec :: EqDecision TargetRegisterInfo;
  getPointerSize : N;
  (** the names of the two register tables are registers of the target *)
  registerNamed : string → TargetRegisterInfo;
  largestOverlappingRegister : TargetRegisterInfo → TargetRegisterInfo;
  getStackPointer : TargetRegisterInfo;
  (** [registerInfo(const GetElementPtrInst&)]: the register a
      field-address computation points to, if any *)
  registerInfo : Instruction → option TargetRegisterInfo
}.

Section Convention.
Context `{TI : TargetInfo}.

(** ** Signature descriptors *)

Inductive ValueInformation :=
| IntegerRegister (reg : TargetRegisterInfo)
| FloatingPointRegister (reg : TargetRegisterInfo)
| Stack (frameBaseOffset : Z).

#[global] Instance ValueInformation_eq_dec : EqDecision ValueInformation.
Proof. solve_decision. Defined.

Record CallInformation := {
  parameters : list ValueInformation;
  returnValues : list ValueInformation
}.

Definition emptyCallInformation : CallInformation :=
  {| parameters := []; returnValues := [] |}.

(** ** addEntriesForType

    The cursor [regIter] is the part of the register table from the
    iterator to [end]; [regIter != end] is "the list is not empty". The
    loop returns the vector, the cursor and the bits left. [bitSize] is an
    [unsigned] that only decreases, by at most itself: it never wraps. *)
Fixpoint addEntries_while (into : list ValueInformation)
    (regIter : list string) (bitSize : N)
  : list ValueInformation * list string * N :=
  match regIter with
  | name :: rest =>
      if bitSize =? 0 then (into, regIter, bitSize)
      else addEntries_while
             (into ++ [IntegerRegister (registerNamed name)])
             rest
             (bitSize - N.min bitSize 64)
  | [] => (into, regIter, bitSize)
  end.

Definition addEntriesForType (into : list ValueInformation)
    (regIter : list string) (type : LType)
  : bool * list ValueInformation * list string :=
  let pointerSize := getPointerSize in
  let type :=
    match type with
    | PointerType _ => IntegerType pointerSize
    | _ => type
    end in
  match type with
  | IntegerType bitWidth =>
      let '(into, regIter, bitSize) := addEntries_while into regIter bitWidth in
      (bitSize =? 0, into, regIter)
  | VoidTy => (true, into, regIter)
  | _ => (false, into, regIter)
  end.

(** ** analyzeFunctionType

    [fillOut] is an out-parameter: the function returns its [bool] and
    leaves in [fillOut] whatever was appended before it returned. *)
Fixpoint analyzeFunctionType_params (into : list ValueInformation)
    (iter : list string) (ts : list LType)
  : bool * list ValueInformation :=
  match ts with
  | [] => (true, into)
  | t :: ts =>
      let '(ok, into, iter) := addEntriesForType into iter t in
      if negb ok then (false, into)
      else analyzeFunctionType_params into iter ts
  end.

Definition analyzeFunctionType (fillOut : CallInformation) (type : FunctionType)
  : bool * CallInformation :=
  let iter := returnRegisters in
  let '(ok, rets, _) :=
    addEntriesForType (returnValues fillOut) iter (getReturnType type) in
  if negb ok
  then (false, {| parameters := parameters fillOut; returnValues := rets |})
  else
    let iter := parameterRegisters in
    let '(ok, ps) :=
      analyzeFunctionType_params (parameters fillOut) iter (params type) in
    (ok, {| parameters := ps; returnValues := rets |}).

(** ** analyzeFunction *)

(** The orchestrator, as far as the convention calls it: the memory
    versions of a function, and the answer of [ipaFindUsedReturns] for a
    function and its candidate return registers. *)
Record ParameterRegistry := {
  getMemorySSA : Function → MemorySSA;
  ipaFindUsedReturns :
    Function → list TargetRegisterInfo → list TargetRegisterInfo
}.

(** [unordered_multimap<const TargetRegisterInfo*, GetElementPtrInst*>]:
    the pairs that were inserted; [equal_range] gives those with the key
    (here in insertion order; the container fixes no order, and the loops
    below emit the same entry for every pair of one range). *)
Definition equal_range (geps : list (TargetRegisterInfo * Value))
    (key : TargetRegisterInfo) : list (TargetRegisterInfo * Value) :=
  filter (λ p, p.1 = key) geps.

(** Identify register GEPs. *)
Definition registerGEPs (function : Function) (regs : Value)
  : list (TargetRegisterInfo * Value) :=
  use ← uses function regs;
  match dyn_cast isGetElementPtrInst function (getUser use) with
  | Some gep =>
      match instructionAt function gep ≫= registerInfo with
      | Some regName => [(regName, gep)]
      | None => []
      end
  | None => []
  end.

(** Look at temporary registers that are read before they are written. *)
Definition registerParameters (mssa : MemorySSA) (function : Function)
    (geps : list (TargetRegisterInfo * Value)) : list ValueInformation :=
  name ← parameterRegisters;
  let smallReg := registerNamed name in
  let regInfo := largestOverlappingRegister smallReg in
  iter ← equal_range geps regInfo;
  use ← uses function iter.2;
  match dyn_cast isLoadInst function (getUser use) with
  | Some load =>
      let parent := getDefiningAccess mssa load in
      if isLiveOnEntryDef parent then [IntegerRegister regInfo] else []
  | None => []
  end.

(** Does the function refer to values at an offset above the initial rsp
    value? *)
Definition stackParameters (function : Function)
    (geps : list (TargetRegisterInfo * Value)) : list ValueInformation :=
  iter ← equal_range geps getStackPointer;
  let gep := iter.2 in
  use ← uses function gep;
  match dyn_cast isLoadInst function (getUser use) with
  | Some load =>
      use ← uses function load;
      match match_Add_ConstantInt function (get use) with
      | Some offset =>
          let intOffset := make_signed (getLimitedValue offset) in
          if (8 <? intOffset)%Z then [Stack intOffset] else []
      | None => []
      end
  | None => []
  end.

(** Are we using return registers? *)
Definition usedReturns (function : Function)
    (geps : list (TargetRegisterInfo * Value)) : list TargetRegisterInfo :=
  name ← returnRegisters;
  let regInfo := registerNamed name in
  iter ← equal_range geps regInfo;
  use ← uses function iter.2;
  if isa isStoreInst function (getUser use) then [regInfo] else [].

Definition analyzeFunction (registry : ParameterRegistry)
    (callInfo : CallInformation) (function : Function)
  : Result CallInformation :=
  assert! (length (arguments function) =? 1)%nat;
  let regs := VArgument 0 in
  match arguments function !! 0%nat with
  | Some (PointerType pointee) =>
      do structName <~ getStructName pointee;
      assert! (String.eqb structName "struct.x86_regs");
      let geps := registerGEPs function regs in
      let mssa := getMemorySSA registry function in
      Ok {| parameters :=
              parameters callInfo
              ++ registerParameters mssa function geps
              ++ stackParameters function geps;
            returnValues :=
              returnValues callInfo
              ++ (IntegerRegister <$>
                    ipaFindUsedReturns registry function
                      (usedReturns function geps)) |}
  | _ => Fail AssertionFailure
  end.

End Convention.

(** * Notions used in the statements *)

(** The number of 64-bit registers an integer of [b] bits takes:
    [ceil (b / 64)]. *)
Definition registersFor (b : N) : nat := N.to_nat ((b + 63) / 64).

Section Notions.
Context `{TI : TargetInfo}.

Definition registerEntries (names : list string) : list ValueInformation :=
  (λ name, IntegerRegister (registerNamed name)) <$> names.

(** The registers a type needs; [None] for a type outside the model. *)
Definition registersNeeded (t : LType) : option nat :=
  match t with
  | IntegerType b => Some (registersFor b)
  | PointerType _ => Some (registersFor getPointerSize)
  | VoidTy => Some 0%nat
  | _ => None
  end.

(** Whether the types fit in [avail] registers, each representable. *)
Fixpoint paramsFit (avail : nat) (ts : list LType) : bool :=
  match ts with
  | [] => true
  | t :: ts =>
      match registersNeeded t with
      | Some n => if (n <=? avail)%nat then paramsFit (avail - n) ts else false
      | None => false
      end
  end.

(** Whether the cursor runs out at some type, every type before it
    having been assigned in full. *)
Fixpoint paramsExhaust (avail : nat) (ts : list LType) : bool :=
  match ts with
  | [] => false
  | t :: ts =>
      match registersNeeded t with
      | Some n => if (n <=? avail)%nat then paramsExhaust (avail - n) ts else true
      | None => false
      end
  end.

Definition isUnrepresentable (t : LType) : bool :=
  match registersNeeded t with Some _ => false | None => true end.

Definition totalNeeded (ts : list LType) : nat :=
  foldr (λ t acc, (default 0 (registersNeeded t) + acc)%nat) 0%nat ts.

(** The register cursor runs out before all bits of some type of the
    signature are assigned: at the return type (two registers), or at a
    parameter (six registers, shared by the parameters). *)
Definition cursorExhausted (type : FunctionType) : bool :=
  match registersNeeded (getReturnType type) with
  | Some n =>
      if (n <=? 2)%nat then paramsExhaust 6 (params type) else true
  | None => false
  end.

(** The convention register a parameter name stands for. *)
Definition parameterRegister (name : string) : TargetRegisterInfo :=
  largestOverlappingRegister (registerNamed name).

(** Instruction [g] is a field-address computation off the register-file
    argument that the target model attributes to register [r]. *)
Definition accessPath (f : Function) (r : TargetRegisterInfo) (g : nat) : Prop :=
  ∃ i, body f !! g = Some i ∧ isGetElementPtrInst i = true ∧
       VArgument 0 ∈ getOperands i ∧ registerInfo i = Some r.

(** Some load through an access path of [r] sees the entry memory state. *)
Definition readsEntryState (mssa : MemorySSA) (f : Function)
    (r : TargetRegisterInfo) : Prop :=
  ∃ g l, accessPath f r g ∧
         body f !! l = Some (LoadInst (VInstruction g)) ∧
         isLiveOnEntryDef (getDefiningAccess mssa (VInstruction l)) = true.

(** Some store writes through an access path of [r]. *)
Definition writesRegister (f : Function) (r : TargetRegisterInfo) : Prop :=
  ∃ g s v, accessPath f r g ∧
           body f !! s = Some (StoreInst v (VInstruction g)).

(** Some store has an access path of [r] as an operand: as the address it
    writes to, or as the value it stores. *)
Definition storeUsesRegister (f : Function) (r : TargetRegisterInfo) : Prop :=
  ∃ g s v q, accessPath f r g ∧
             body f !! s = Some (StoreInst v q) ∧
             (v = VInstruction g ∨ q = VInstruction g).

(** The entry-state loads met by the parameter loop for one register, in
    the order it meets them. *)
Definition entryLoads (mssa : MemorySSA) (function : Function)
    (geps : list (TargetRegisterInfo * Value)) (regInfo : TargetRegisterInfo)
  : list Value :=
  iter ← equal_range geps regInfo;
  use ← uses function iter.2;
  match dyn_cast isLoadInst function (getUser use) with
  | Some load =>
      if isLiveOnEntryDef (getDefiningAccess mssa load) then [load] else []
  | None => []
  end.

(** The stores met by the return-register loop for one register. *)
Definition storeUsers (function : Function)
    (geps : list (TargetRegisterInfo * Value)) (regInfo : TargetRegisterInfo)
  : list Value :=
  iter ← equal_range geps regInfo;
  use ← uses function iter.2;
  if isa isStoreInst function (getUser use) then [getUser use] else [].

(** The shape [analyzeFunction] asserts: one argument, a pointer to the
    struct named struct.x86_regs. *)
Definition hasRegisterFileArgument (f : Function) : bool :=
  match arguments f with
  | [t] =>
      match t with
      | PointerType (StructType (Some n) _) => String.eqb n "struct.x86_regs"
      | _ => false
      end
  | _ => false
  end.

(** The entries of [b] after those of [a]. *)
Definition appendCallInformation (a b : CallInformation) : CallInformation :=
  {| parameters := parameters a ++ parameters b;
     returnValues := returnValues a ++ returnValues b |}.

(** Modelled from the spec: [ipaFindUsedReturns] (cc_common) is not among
    the sources. Section 4.4, step 4: "Resolve candidates via the
    interprocedural query in §4.6 and keep only confirmed registers, in
    the convention's fixed return-register order": the answer keeps some
    of the candidates it was given, in the order it was given them. *)
Definition keepsConfirmedCandidates (registry : ParameterRegistry) : Prop :=
  ∀ (f : Function) (candidates : list TargetRegisterInfo),
    ipaFindUsedReturns registry f candidates `sublist_of` candidates.

(** What section 4.4, step 3 describes, for comparison with
    [stackParameters]: the constant offset is looked for in the
    instruction that uses the loaded stack pointer ([getUser]), where the
    source inspects the used value ([get]). *)
Definition stackParameters_getUser (function : Function)
    (geps : list (TargetRegisterInfo * Value)) : list ValueInformation :=
  iter ← equal_range geps getStackPointer;
  let gep := iter.2 in
  use ← uses function gep;
  match dyn_cast isLoadInst function (getUser use) with
  | Some load =>
      use ← uses function load;
      match match_Add_ConstantInt function (getUser use) with
      | Some offset =>
          let intOffset := make_signed (getLimitedValue offset) in
          if (8 <? intOffset)%Z then [Stack intOffset] else []
      | None => []
      end
  | None => []
  end.

End Notions.

(** ** A concrete target and some lifted functions *)

(** Modelled from the spec: the register table of [x86TargetInfo]
    (x86_register_map.h declares the function; the table is not among the
    sources). Registers are identified by their names; each 64-bit
    register has a 32-bit sub-register that it encloses. The register file
    has one field per 64-bit register; the access path [0, k] addresses
    field [k] in full, the access path [0, k, 0] its 32-bit sub-register.
    The spec leaves open which register [registerForAccessPath] reports
    for a sub-register path, so the table is given both ways:
    [attributeToLargest] makes a sub-register path report the enclosing
    64-bit register, otherwise it reports the sub-register itself. *)
Definition x86_registers : list (string * string) :=
  [("rax", "eax"); ("rbx", "ebx"); ("rcx", "ecx"); ("rdx", "edx");
   ("rsi", "esi"); ("rdi", "edi"); ("rbp", "ebp"); ("rsp", "esp");
   ("r8", "r8d"); ("r9", "r9d"); ("r10", "r10d"); ("r11", "r11d");
   ("r12", "r12d"); ("r13", "r13d"); ("r14", "r14d"); ("r15", "r15d");
   ("rip", "eip")].

Definition x86_largestOverlappingRegister (r : string) : string :=
  match filter (λ p, p.2 = r) x86_registers with
  | p :: _ => p.1
  | [] => r
  end.

Definition x86_registerInfo (attributeToLargest : bool) (i : Instruction)
  : option string :=
  match i with
  | GetElementPtrInst (VArgument 0) [VConstantInt _ 0; VConstantInt _ k] =>
      fst <$> x86_registers !! N.to_nat k
  | GetElementPtrInst (VArgument 0)
      [VConstantInt _ 0; VConstantInt _ k; VConstantInt _ 0] =>
      (if attributeToLargest then fst else snd) <$> x86_registers !! N.to_nat k
  | _ => None
  end.

Definition x86TargetInfo (attributeToLargest : bool) : TargetInfo := {|
  TargetRegisterInfo := string;
  getPointerSize := 64;
  registerNamed := id;
  largestOverlappingRegister := x86_largestOverlappingRegister;
  getStackPointer := "rsp";
  registerInfo := x86_registerInfo attributeToLargest
|}.

Definition x86_regs : LType :=
  StructType (Some "struct.x86_regs") (replicate 17 (IntegerType 64)).

Definition liftedFunction (body : list Instruction) : Function :=
  {| arguments := [PointerType x86_regs]; body := body |}.

(** The access paths of the examples: field 5 is rdi, 3 is rdx, 4 is rsi,
    0 is rax, 7 is rsp. *)
Definition fieldAddress (k : N) : Instruction :=
  GetElementPtrInst (VArgument 0) [VConstantInt 64 0; VConstantInt 32 k].
Definition subFieldAddress (k : N) : Instruction :=
  GetElementPtrInst (VArgument 0)
    [VConstantInt 64 0; VConstantInt 32 k; VConstantInt 32 0].

(** The memory versions of a function that is one basic block: a load
    sees the last store or call before it, the entry state when there is
    none. *)
Definition isMemoryDef (i : Instruction) : bool :=
  match i with StoreInst _ _ | CallInst _ _ => true | _ => false end.

Fixpoint lastMemoryDef (insts : list Instruction) (n : nat) : MemoryAccess :=
  match n with
  | O => LiveOnEntryDef
  | S m =>
      match insts !! m with
      | Some i => if isMemoryDef i then MemoryDef m else lastMemoryDef insts m
      | None => lastMemoryDef insts m
      end
  end.

Definition straightLineMemorySSA (f : Function) : MemorySSA :=
  {| getDefiningAccess v :=
       match v with
       | VInstruction n => lastMemoryDef (body f) n
       | _ => LiveOnEntryDef
       end |}.

(** A registry whose return-usage query keeps the candidates that
    [confirmed] holds of. *)
Definition x86Registry (attributeToLargest : bool) (confirmed : string → bool)
  : @ParameterRegistry (x86TargetInfo attributeToLargest) :=
  {| getMemorySSA := straightLineMemorySSA;
     ipaFindUsedReturns := λ _ candidates,
       filter (λ r, confirmed r = true) candidates |}.

(** A signature descriptor of registers only, by their names. *)
Definition x86CallInformation (attributeToLargest : bool)
    (parameterNames returnNames : list string)
  : @CallInformation (x86TargetInfo attributeToLargest) :=
  {| parameters :=
       IntegerRegister (TI := x86TargetInfo attributeToLargest)
         <$> parameterNames;
     returnValues :=
       IntegerRegister (TI := x86TargetInfo attributeToLargest)
         <$> returnNames |}.

(** reads rdx, then rdi; never rsi *)
Definition reads_rdx_then_rdi : Function :=
  liftedFunction
    [fieldAddress 3; LoadInst (VInstruction 0);
     fieldAddress 5; LoadInst (VInstruction 2);
     BinaryOperator Add (VInstruction 1) (VInstruction 3)].

(** reads the 32-bit sub-register of rdi and rdi in full, writes neither *)
Definition reads_edi_and_rdi : Function :=
  liftedFunction
    [subFieldAddress 5; LoadInst (VInstruction 0);
     fieldAddress 5; LoadInst (VInstruction 2)].

(** reads rdi twice through one access path *)
Definition reads_rdi_twice : Function :=
  liftedFunction
    [fieldAddress 5; LoadInst (VInstruction 0); LoadInst (VInstruction 0)].

(** reads the quadword at [rsp + 16] *)
Definition reads_stack_16 : Function :=
  liftedFunction
    [fieldAddress 7; LoadInst (VInstruction 0);
     BinaryOperator Add (VInstruction 1) (VConstantInt 64 16);
     CastInst (VInstruction 2) (PointerType (IntegerType 64));
     LoadInst (VInstruction 3)].

(** writes rdx, then rax *)
Definition writes_rdx_then_rax : Function :=
  liftedFunction
    [fieldAddress 3; StoreInst (VConstantInt 64 1) (VInstruction 0);
     fieldAddress 0; StoreInst (VConstantInt 64 2) (VInstruction 2)].

(** writes rdi, then reads it *)
Definition writes_rdi_then_reads : Function :=
  liftedFunction
    [fieldAddress 5; StoreInst (VConstantInt 64 0) (VInstruction 0);
     LoadInst (VInstruction 0)].

(** reads the return address at [rsp + 8] *)
Definition reads_stack_8 : Function :=
  liftedFunction
    [fieldAddress 7; LoadInst (VInstruction 0);
     BinaryOperator Add (VInstruction 1) (VConstantInt 64 8);
     CastInst (VInstruction 2) (PointerType (IntegerType 64));
     LoadInst (VInstruction 3)].

(** reads rdi twice and rdx once; never rsi *)
Definition reads_rdi_rdi_rdx : Function :=
  liftedFunction
    [fieldAddress 5; LoadInst (VInstruction 0); LoadInst (VInstruction 0);
     fieldAddress 3; LoadInst (VInstruction 3)].

(** stores the address of the rax field somewhere else; writes no register *)
Definition stores_rax_address : Function :=
  liftedFunction
    [fieldAddress 0; StoreInst (VInstruction 0) (VOther 0)].

(** A registry whose return-usage query answers its candidates in the
    opposite order. *)
Definition x86ReversingRegistry
  : @ParameterRegistry (x86TargetInfo false) :=
  {| getMemorySSA := straightLineMemorySSA;
     ipaFindUsedReturns := λ _ candidates, reverse candidates |}.

(** a function whose argument is not a register file *)
Definition takes_an_integer : Function :=
  {| arguments := [IntegerType 64]; body := [] |}.

(** a function with an empty body *)
Definition empty_function : Function := liftedFunction [].

(** a 128-bit return value; a quadword, a pointer and a 65-bit integer *)
Definition wide_signature : FunctionType :=
  {| getReturnType := IntegerType 128;
     params := [IntegerType 64; PointerType (IntegerType 8); IntegerType 65] |}.

Definition i64 : LType := IntegerType 64.
Definition nine_integers : FunctionType :=
  {| getReturnType := VoidTy; params := replicate 9 i64 |}.
Definition void_void : FunctionType :=
  {| getReturnType := VoidTy; params := [] |}.

(** * Properties *)

(** ** matches *)

Lemma substr_app (p s : string) :
  substr (p ++ s)%string (String.length p) = Ok s.
Proof. induction p as [|c p IH]; simpl; [done | exact IH]. Qed.

Lemma substr_Ok_inv (s r : string) (pos : nat) :
  substr s pos = Ok r → ∃ p, String.length p = pos ∧ s = (p ++ r)%string.
Proof.
  revert s. induction pos as [|pos IH]; intros s H.
  - exists ""%string. split; [done|]. simpl in H. by injection H as <-.
  - destruct s as [|c s]; simpl in H; [done|].
    destruct (IH _ H) as (p & Hlen & ->).
    exists (String c p). simpl. by rewrite Hlen.
Qed.

Lemma matches_app (p q s e : string) :
  String.length p = 3%nat → String.length q = 6%nat →
  matches (p ++ s)%string (q ++ e)%string =
    Ok (if String.eqb s "x86" then String.eqb e "ELF 64" else false).
Proof.
  intros Hp Hq. unfold matches.
  rewrite <- Hq, <- Hp, !substr_app. cbn [bindR].
  by destruct (String.eqb s "x86").
Qed.

(** C10. [matches] answers [true] exactly when the target name is three
    characters followed by "x86" and the executable type is six characters
    followed by "ELF 64"; the three and six leading characters themselves
    do not influence the answer. *)
Theorem matches_true_iff_suffixes :
  (∀ targetName executableType : string,
     matches targetName executableType = Ok true ↔
     ∃ p q : string,
       String.length p = 3%nat ∧ String.length q = 6%nat ∧
       targetName = (p ++ "x86")%string ∧
       executableType = (q ++ "ELF 64")%string) ∧
  (∀ p p' q q' s e : string,
     String.length p = 3%nat → String.length p' = 3%nat →
     String.length q = 6%nat → String.length q' = 6%nat →
     matches (p ++ s)%string (q ++ e)%string =
     matches (p' ++ s)%string (q' ++ e)%string).
Proof.
  split.
  - intros t e. split.
    + unfold matches. intros H.
      destruct (substr t 3) as [t'|] eqn:Ht; [|done]. cbn [bindR] in H.
      destruct (String.eqb t' "x86") eqn:Ex; [|done].
      destruct (substr e 6) as [e'|] eqn:He; [|done]. cbn [bindR] in H.
      injection H as Ee.
      apply String.eqb_eq in Ex, Ee. subst t' e'.
      apply substr_Ok_inv in Ht as (p & Hp & ->).
      apply substr_Ok_inv in He as (q & Hq & ->).
      by exists p, q.
    + intros (p & q & Hp & Hq & -> & ->).
      by rewrite matches_app.
  - intros p p' q q' s e Hp Hp' Hq Hq'. by rewrite !matches_app.
Qed.

Lemma matches_true_iff_suffixes_witness :
  matches "xxxx86" "123456ELF 64" = matches "i38x86" "      ELF 64".
Proof.
  exact (proj2 matches_true_iff_suffixes "xxx" "i38" "123456" "      "
           "x86" "ELF 64" eq_refl eq_refl eq_refl eq_refl).
Defined.

(** ** Static classification *)


Lemma registersFor_ceil (b : N) :
  b ≤ 64 * N.of_nat (registersFor b) ∧
  (∀ k : nat, b ≤ 64 * N.of_nat k → (registersFor b ≤ k)%nat).
Proof.
  unfold registersFor.
  pose proof (N.div_mod (b + 63) 64 ltac:(done)) as Hdm.
  pose proof (N.mod_upper_bound (b + 63) 64 ltac:(done)) as Hub.
  set (q := (b + 63) / 64) in *. set (r := (b + 63) mod 64) in *.
  clearbody q r. split; [|intros k Hk]; lia.
Qed.

Lemma registersFor_0 : registersFor 0 = 0%nat.
Proof. reflexivity. Qed.

Lemma registersFor_step (b : N) :
  b ≠ 0 → registersFor b = S (registersFor (b - N.min b 64)).
Proof.
  intros Hb. unfold registersFor.
  destruct (N.le_gt_cases b 64) as [Hle|Hgt].
  - rewrite N.min_l by done. replace (b - b + 63) with 63 by lia.
    replace ((b + 63) / 64) with 1; [done|].
    apply N.div_unique with (r := b - 1); lia.
  - rewrite N.min_r by lia.
    replace (b + 63) with ((b - 64 + 63) + 1 * 64) by lia.
    rewrite N.div_add by done. lia.
Qed.

Section StaticClassification.
Context `{TI : TargetInfo}.


(** The loop takes registers one at a time until the bits or the
    registers run out. *)
Lemma addEntries_while_spec (into : list ValueInformation)
    (regIter : list string) (bitSize : N) :
  let k := (registersFor bitSize `min` length regIter)%nat in
  addEntries_while into regIter bitSize =
    (into ++ registerEntries (take k regIter),
     drop k regIter,
     bitSize - 64 * N.of_nat k).
Proof.
  revert into bitSize.
  induction regIter as [|name rest IH]; intros into bitSize; simpl.
  - rewrite Nat.min_0_r. simpl. rewrite app_nil_r. f_equal. lia.
  - destruct (N.eqb_spec bitSize 0) as [->|Hne].
    + simpl. by rewrite app_nil_r.
    + rewrite IH, (registersFor_step bitSize Hne). simpl.
      rewrite <- app_assoc. simpl. f_equal.
      set (k := (registersFor (bitSize - N.min bitSize 64) `min` length rest)%nat).
      assert (Hk : bitSize ≤ 64 → k = 0%nat).
      { intros Hle. unfold k. rewrite N.min_l by done.
        by rewrite N.sub_diag. }
      clearbody k. lia.
Qed.


Lemma addEntriesForType_spec (into : list ValueInformation)
    (regIter : list string) (t : LType) :
  addEntriesForType into regIter t =
    match registersNeeded t with
    | Some n =>
        let k := (n `min` length regIter)%nat in
        (bool_decide (n ≤ length regIter)%nat,
         into ++ registerEntries (take k regIter),
         drop k regIter)
    | None => (false, into, regIter)
    end.
Proof.
  assert (Hint : ∀ b,
    addEntriesForType into regIter (IntegerType b) =
      (bool_decide (registersFor b ≤ length regIter)%nat,
       into ++ registerEntries (take (registersFor b `min` length regIter)%nat regIter),
       drop (registersFor b `min` length regIter)%nat regIter)).
  { intros b. unfold addEntriesForType.
    rewrite addEntries_while_spec. cbv zeta. do 2 f_equal.
    destruct (registersFor_ceil b) as [Hup Hleast].
    set (n := registersFor b) in *. clearbody n.
    case_bool_decide as Hle.
    - rewrite Nat.min_l by done. apply N.eqb_eq. lia.
    - apply N.eqb_neq. intros Hz.
      apply Hle. etrans; [apply Hleast|apply Nat.le_min_r].
      apply N.sub_0_le, Hz. }
  destruct t; try reflexivity.
  - unfold addEntriesForType, registersNeeded. simpl.
    by rewrite app_nil_r.
  - apply Hint.
  - apply (Hint getPointerSize).
Qed.


Lemma registerEntries_app (l1 l2 : list string) :
  registerEntries (l1 ++ l2) = registerEntries l1 ++ registerEntries l2.
Proof. apply fmap_app. Qed.

Lemma analyzeFunctionType_params_fit into iter ts :
  (analyzeFunctionType_params into iter ts).1 = paramsFit (length iter) ts.
Proof.
  revert into iter. induction ts as [|t ts IH]; intros into iter; [done|].
  simpl. rewrite addEntriesForType_spec.
  destruct (registersNeeded t) as [n|]; [|done]. cbv zeta.
  destruct (Nat.leb_spec n (length iter)) as [Hle|Hgt].
  - rewrite bool_decide_eq_true_2 by done. simpl.
    rewrite IH, Nat.min_l, length_drop by done. done.
  - rewrite bool_decide_eq_false_2 by lia. done.
Qed.

Lemma analyzeFunctionType_params_success into iter ts :
  paramsFit (length iter) ts = true →
  analyzeFunctionType_params into iter ts =
    (true, into ++ registerEntries (take (totalNeeded ts) iter)) ∧
  (totalNeeded ts ≤ length iter)%nat.
Proof.
  revert into iter. induction ts as [|t ts IH]; intros into iter Hfit.
  - simpl. rewrite app_nil_r. split; [done|lia].
  - simpl in *. rewrite addEntriesForType_spec.
    destruct (registersNeeded t) as [n|]; [|done]. cbv zeta.
    destruct (Nat.leb_spec n (length iter)) as [Hle|Hgt]; [|done].
    rewrite bool_decide_eq_true_2 by done. simpl.
    rewrite Nat.min_l by done.
    rewrite <- (length_drop iter n) in Hfit.
    destruct (IH (into ++ registerEntries (take n iter)) (drop n iter) Hfit)
      as [-> Hlen].
    rewrite length_drop in Hlen. split; [|lia].
    by rewrite <- app_assoc, <- registerEntries_app, take_take_drop.
Qed.

Lemma analyzeFunctionType_params_exhaust into iter ts :
  paramsExhaust (length iter) ts = true →
  analyzeFunctionType_params into iter ts =
    (false, into ++ registerEntries iter).
Proof.
  revert into iter. induction ts as [|t ts IH]; intros into iter Hex; [done|].
  simpl in *. rewrite addEntriesForType_spec.
  destruct (registersNeeded t) as [n|]; [|done]. cbv zeta.
  destruct (Nat.leb_spec n (length iter)) as [Hle|Hgt].
  - rewrite bool_decide_eq_true_2 by done. simpl.
    rewrite Nat.min_l by done.
    rewrite <- (length_drop iter n) in Hex.
    rewrite (IH _ _ Hex).
    by rewrite <- app_assoc, <- registerEntries_app, take_drop.
  - rewrite bool_decide_eq_false_2 by lia. simpl.
    rewrite Nat.min_r by lia. by rewrite firstn_all.
Qed.

Lemma paramsFit_unrepresentable avail ts t :
  t ∈ ts → isUnrepresentable t = true → paramsFit avail ts = false.
Proof.
  intros Hin Hun. revert avail.
  induction Hin as [t ts|t t' ts Hin IH]; intros avail; simpl.
  - unfold isUnrepresentable in Hun. by destruct (registersNeeded t).
  - destruct (registersNeeded t'); [|done].
    destruct (_ <=? _)%nat; [by apply IH|done].
Qed.

Lemma analyzeFunctionType_return fillOut type :
  (analyzeFunctionType fillOut type).1 =
    match registersNeeded (getReturnType type) with
    | Some n => bool_decide (n ≤ 2)%nat && paramsFit 6 (params type)
    | None => false
    end.
Proof.
  unfold analyzeFunctionType. rewrite addEntriesForType_spec.
  destruct (registersNeeded (getReturnType type)) as [n|]; [|done]. cbv zeta.
  change (length returnRegisters) with 2%nat.
  case_bool_decide; [|done]. simpl.
  pose proof (analyzeFunctionType_params_fit (parameters fillOut)
                parameterRegisters (params type)) as Hfit.
  by destruct (analyzeFunctionType_params _ _ _).
Qed.

Lemma totalNeeded_app ts1 ts2 :
  totalNeeded (ts1 ++ ts2) = (totalNeeded ts1 + totalNeeded ts2)%nat.
Proof.
  unfold totalNeeded. induction ts1 as [|t ts1 IH]; simpl; [done|].
  rewrite IH. lia.
Qed.

Lemma take_three_runs {A} (l : list A) (a b c : nat) :
  take (a + (b + c)) l
  = take a l ++ take b (drop a l) ++ take c (drop (a + b) l).
Proof.
  rewrite <- (take_take_drop l a (b + c)). f_equal.
  rewrite <- (take_take_drop (drop a l) b c). f_equal.
  by rewrite drop_drop.
Qed.

(** C6. An integer of [b] bits that is classified takes exactly
    [ceil (b / 64)] consecutive registers from the cursor: the entries
    appended are the next [registersFor b] registers, and the cursor moves
    past them. In a signature that is classified, the registers of an
    integer parameter follow those of the parameters before it. A 128-bit
    and a 65-bit integer parameter take rdi and rsi. *)
Theorem integer_takes_ceil_registers :
  (∀ b : N,
     b ≤ 64 * N.of_nat (registersFor b) ∧ 64 * N.of_nat (registersFor b) < b + 64) ∧
  (∀ into regIter b into' regIter',
     addEntriesForType into regIter (IntegerType b) = (true, into', regIter') →
     (registersFor b ≤ length regIter)%nat ∧
     into' = into ++ registerEntries (take (registersFor b) regIter) ∧
     regIter' = drop (registersFor b) regIter) ∧
  (∀ fillOut type out pre b post,
     analyzeFunctionType fillOut type = (true, out) →
     params type = pre ++ IntegerType b :: post →
     (totalNeeded pre + registersFor b ≤ 6)%nat ∧
     parameters out =
       parameters fillOut
       ++ registerEntries (take (totalNeeded pre) parameterRegisters)
       ++ registerEntries
            (take (registersFor b) (drop (totalNeeded pre) parameterRegisters))
       ++ registerEntries
            (take (totalNeeded post)
               (drop (totalNeeded pre + registersFor b) parameterRegisters))) ∧
  analyzeFunctionType emptyCallInformation
    {| getReturnType := VoidTy; params := [IntegerType 128] |}
  = (true, {| parameters := registerEntries ["rdi"; "rsi"];
              returnValues := [] |}) ∧
  analyzeFunctionType emptyCallInformation
    {| getReturnType := VoidTy; params := [IntegerType 65] |}
  = (true, {| parameters := registerEntries ["rdi"; "rsi"];
              returnValues := [] |}).
Proof.
  split; [|split; [|split; [|split; reflexivity]]].
  - intros b. destruct (registersFor_ceil b) as [Hup Hleast]. split; [done|].
    destruct (registersFor b) as [|k] eqn:Hk; [lia|].
    destruct (decide (b ≤ 64 * N.of_nat k)) as [Hle|Hgt]; [|lia].
    specialize (Hleast k Hle). lia.
  - intros into regIter b into' regIter' H.
    rewrite addEntriesForType_spec in H. simpl in H.
    injection H as Hok <- <-.
    apply bool_decide_eq_true_1 in Hok.
    by rewrite Nat.min_l by done.
  - intros fillOut type out pre b post H Hparams.
    pose proof (analyzeFunctionType_return fillOut type) as Hret.
    rewrite H in Hret. simpl in Hret.
    destruct (registersNeeded (getReturnType type)) as [n|]; [|done].
    symmetry in Hret. apply andb_true_iff in Hret as [_ Hfit].
    unfold analyzeFunctionType in H.
    destruct (addEntriesForType _ _ (getReturnType type)) as [[ok rets] it].
    destruct ok; [|done]. simpl in H.
    destruct (analyzeFunctionType_params_success (parameters fillOut)
                parameterRegisters (params type) Hfit) as [Heq Hlen].
    rewrite Heq in H. injection H as <-. simpl.
    rewrite Hparams in Hlen |- *.
    rewrite totalNeeded_app in Hlen |- *.
    change (totalNeeded (IntegerType b :: post))
      with (registersFor b + totalNeeded post)%nat in *.
    change (length parameterRegisters) with 6%nat in Hlen.
    split; [lia|].
    by rewrite take_three_runs, !registerEntries_app.
Qed.

Lemma paramsExhaust_not_fit avail ts :
  paramsExhaust avail ts = true → paramsFit avail ts = false.
Proof.
  revert avail. induction ts as [|t ts IH]; intros avail; simpl; [done|].
  destruct (registersNeeded t); [|done].
  destruct (_ <=? _)%nat; [apply IH|done].
Qed.

(** C5, as the code has it. When the cursor runs out, [analyzeFunctionType]
    answers [false] for the whole signature. It does not undo what it
    appended to [fillOut]: when a parameter runs out of registers, the
    parameter sequence has gained all six parameter registers; when the
    return type runs out, the return sequence has gained rax and rdx. *)
Theorem exhausted_cursor_fails_and_keeps_entries
    (fillOut : CallInformation) (type : FunctionType) :
  cursorExhausted type = true →
  ∃ out, analyzeFunctionType fillOut type = (false, out) ∧
    ∃ n, registersNeeded (getReturnType type) = Some n ∧
      if (n <=? 2)%nat
      then parameters out
             = parameters fillOut ++ registerEntries parameterRegisters ∧
           returnValues out
             = returnValues fillOut
               ++ registerEntries (take n returnRegisters)
      else parameters out = parameters fillOut ∧
           returnValues out
             = returnValues fillOut ++ registerEntries returnRegisters.
Proof.
  unfold cursorExhausted, analyzeFunctionType. intros Hex.
  rewrite addEntriesForType_spec.
  destruct (registersNeeded (getReturnType type)) as [n|]; [|done]. cbv zeta.
  change (length returnRegisters) with 2%nat.
  destruct (Nat.leb_spec n 2) as [Hle|Hgt].
  - rewrite bool_decide_eq_true_2 by done. simpl.
    rewrite (analyzeFunctionType_params_exhaust _ parameterRegisters _ Hex).
    eexists. split; [done|]. exists n. split; [done|].
    rewrite (proj2 (Nat.leb_le n 2) Hle). simpl.
    by rewrite Nat.min_l by done.
  - rewrite bool_decide_eq_false_2 by lia. simpl.
    eexists. split; [done|]. exists n. split; [done|].
    rewrite (proj2 (Nat.leb_gt n 2) Hgt). simpl.
    by rewrite Nat.min_r by lia.
Qed.

(** C7. A signature whose return type or one of whose parameter types is
    neither an integer, nor a pointer, nor void is answered [false]; a
    pointer is classified as the integer of pointer width. *)
Theorem other_types_are_unrepresentable :
  (∀ fillOut type,
     isUnrepresentable (getReturnType type) = true ∨
     (∃ t, t ∈ params type ∧ isUnrepresentable t = true) →
     (analyzeFunctionType fillOut type).1 = false) ∧
  (∀ t, isUnrepresentable t = true ↔
        match t with
        | IntegerType _ | PointerType _ | VoidTy => False
        | _ => True
        end) ∧
  (∀ into regIter pointee,
     addEntriesForType into regIter (PointerType pointee)
     = addEntriesForType into regIter (IntegerType getPointerSize)).
Proof.
  split; [|split].
  - intros fillOut type H. rewrite analyzeFunctionType_return.
    destruct H as [Hret|(t & Hin & Hun)].
    + unfold isUnrepresentable in Hret.
      by destruct (registersNeeded (getReturnType type)).
    + destruct (registersNeeded (getReturnType type)); [|done].
      rewrite (paramsFit_unrepresentable 6 _ t Hin Hun).
      apply andb_false_r.
  - intros t. by destruct t.
  - done.
Qed.

(** C8. The signature [void (void)] is classified, with no parameter and
    no return value; [void] takes no register and leaves the cursor where
    it is. *)
Theorem void_void_is_classified_empty :
  analyzeFunctionType emptyCallInformation void_void
  = (true, emptyCallInformation) ∧
  (∀ into regIter, addEntriesForType into regIter VoidTy = (true, into, regIter)).
Proof. split; reflexivity. Qed.

End StaticClassification.

(** ** The dataflow analysis *)

(** A use of [v] is an operand slot of an instruction of the body that
    holds [v]. *)
Lemma elem_of_uses (f : Function) (v : Value) (u : Use) :
  u ∈ uses f v ↔
  ∃ n i, body f !! n = Some i ∧ v ∈ getOperands i ∧
         u = {| get := v; getUser := VInstruction n |}.
Proof.
  unfold uses. rewrite list_elem_of_bind. split.
  - intros ([n i] & Hu & Hni).
    apply elem_of_lookup_imap in Hni as (n' & i' & [= -> ->] & Hlook).
    apply list_elem_of_bind in Hu as (op & Hu & Hop).
    case_decide as Heq; [|by apply not_elem_of_nil in Hu].
    apply list_elem_of_singleton in Hu. subst. by exists n', i'.
  - intros (n & i & Hlook & Hop & ->). exists (n, i). split.
    + apply list_elem_of_bind. exists v. split; [|done].
      rewrite decide_True by done. by apply list_elem_of_singleton.
    + by apply (elem_of_lookup_imap_2 pair).
Qed.

Lemma uses_get (f : Function) (v : Value) (u : Use) :
  u ∈ uses f v → get u = v.
Proof. intros (n & i & _ & _ & ->)%elem_of_uses. done. Qed.

Lemma dyn_cast_Some (T : Instruction → bool) f v w :
  dyn_cast T f v = Some w ↔
  w = v ∧ ∃ i, instructionAt f v = Some i ∧ T i = true.
Proof.
  unfold dyn_cast. destruct (instructionAt f v) as [i|].
  - destruct (T i) eqn:HT; split.
    + intros [= <-]. eauto.
    + by intros [-> _].
    + done.
    + intros (_ & i' & [= <-] & HT'). congruence.
  - split; [done|]. by intros (_ & i & Hi & _).
Qed.

Lemma bind_nil_forall {A B} (l : list A) (k : A → list B) :
  (∀ x, x ∈ l → k x = []) → l ≫= k = [].
Proof.
  induction l as [|x l IH]; intros H; [done|].
  rewrite bind_cons, (H x), IH; [done| |by left].
  intros y Hy. apply H. by right.
Qed.

Lemma bind_replicate {A B C} (l : list A) (k1 : A → list B) (k2 : A → list C)
    (b : B) :
  (∀ x, x ∈ l → k1 x = replicate (length (k2 x)) b) →
  l ≫= k1 = replicate (length (l ≫= k2)) b.
Proof.
  induction l as [|x l IH]; intros H; [done|].
  rewrite !bind_cons, length_app, replicate_add, (H x), IH; [done| |by left].
  intros y Hy. apply H. by right.
Qed.

Lemma bind_ext_in {A B} (l : list A) (k1 k2 : A → list B) :
  (∀ x, x ∈ l → k1 x = k2 x) → l ≫= k1 = l ≫= k2.
Proof.
  induction l as [|x l IH]; intros H; [done|].
  rewrite !bind_cons, (H x), IH; [done| |by left].
  intros y Hy. apply H. by right.
Qed.

Section Dataflow.
Context `{TI : TargetInfo}.

(** The stack pass looks for the [add] in the value that is used, which is
    the load of the stack pointer itself: it finds none. *)
Lemma stackParameters_nil (f : Function)
    (geps : list (TargetRegisterInfo * Value)) :
  stackParameters f geps = [].
Proof.
  unfold stackParameters.
  apply bind_nil_forall. intros iter _.
  apply bind_nil_forall. intros use _.
  destruct (dyn_cast isLoadInst f (getUser use)) as [load|] eqn:Hload; [|done].
  apply dyn_cast_Some in Hload as (-> & i & Hi & Hisload).
  apply bind_nil_forall. intros use' Hin.
  rewrite (uses_get _ _ _ Hin).
  unfold match_Add_ConstantInt. rewrite Hi. by destruct i.
Qed.

Lemma elem_of_registerGEPs (f : Function) (r : TargetRegisterInfo) (gep : Value) :
  (r, gep) ∈ registerGEPs f (VArgument 0) ↔
  ∃ g, gep = VInstruction g ∧ accessPath f r g.
Proof.
  unfold registerGEPs, accessPath. rewrite list_elem_of_bind. split.
  - intros (u & Hin & Hu).
    apply elem_of_uses in Hu as (n & i & Hlook & Hop & ->). simpl in Hin.
    unfold dyn_cast in Hin. simpl in Hin. rewrite Hlook in Hin. simpl in Hin.
    destruct (isGetElementPtrInst i) eqn:Hgep;
      [|by apply not_elem_of_nil in Hin].
    simpl in Hin. rewrite Hlook in Hin. simpl in Hin.
    destruct (registerInfo i) as [r'|] eqn:Hr;
      [|by apply not_elem_of_nil in Hin].
    apply list_elem_of_singleton in Hin as [= -> ->].
    exists n. split; [done|]. by exists i.
  - intros (g & -> & i & Hlook & Hgep & Hop & Hr).
    exists {| get := VArgument 0; getUser := VInstruction g |}. split.
    + unfold dyn_cast. simpl. rewrite Hlook. simpl. rewrite Hgep. simpl.
      rewrite Hlook. simpl. rewrite Hr. by apply list_elem_of_singleton.
    + apply elem_of_uses. by exists g, i.
Qed.

Lemma elem_of_equal_range geps (key : TargetRegisterInfo) p :
  p ∈ equal_range geps key ↔ p.1 = key ∧ p ∈ geps.
Proof. unfold equal_range. by rewrite list_elem_of_filter. Qed.

Lemma isLoadInst_inv i : isLoadInst i = true → ∃ p, i = LoadInst p.
Proof. destruct i; try done. eauto. Qed.

Lemma isStoreInst_inv i : isStoreInst i = true → ∃ v p, i = StoreInst v p.
Proof. destruct i; try done. eauto. Qed.

Lemma elem_of_entryLoads mssa (f : Function) (r : TargetRegisterInfo) load :
  load ∈ entryLoads mssa f (registerGEPs f (VArgument 0)) r ↔
  ∃ g l, load = VInstruction l ∧ accessPath f r g ∧
         body f !! l = Some (LoadInst (VInstruction g)) ∧
         isLiveOnEntryDef (getDefiningAccess mssa (VInstruction l)) = true.
Proof.
  unfold entryLoads. rewrite list_elem_of_bind. split.
  - intros ([r' gep] & Hin & Hiter).
    apply elem_of_equal_range in Hiter as [Hkey Hgep]. simpl in Hkey. subst r'.
    apply elem_of_registerGEPs in Hgep as (g & -> & Hpath).
    apply list_elem_of_bind in Hin as (u & Hin & Hu). simpl in Hu.
    apply elem_of_uses in Hu as (l & i & Hlook & Hop & ->). simpl in Hin.
    destruct (dyn_cast isLoadInst f (VInstruction l)) as [w|] eqn:Hcast;
      [|by apply not_elem_of_nil in Hin].
    apply dyn_cast_Some in Hcast as (-> & i' & Hi' & Hisload).
    simpl in Hi'. rewrite Hlook in Hi'. injection Hi' as <-.
    destruct (isLiveOnEntryDef _) eqn:Hlive;
      [|by apply not_elem_of_nil in Hin].
    apply list_elem_of_singleton in Hin as ->.
    apply isLoadInst_inv in Hisload as [p ->]. simpl in Hop.
    apply list_elem_of_singleton in Hop as <-.
    by exists g, l.
  - intros (g & l & -> & Hpath & Hlook & Hlive).
    exists (r, VInstruction g). split.
    + apply list_elem_of_bind.
      exists {| get := VInstruction g; getUser := VInstruction l |}. split.
      * unfold dyn_cast. simpl. rewrite Hlook. simpl. rewrite Hlive.
        by apply list_elem_of_singleton.
      * apply elem_of_uses. exists l, (LoadInst (VInstruction g)).
        split; [done|]. split; [|done]. by apply list_elem_of_singleton.
    + apply elem_of_equal_range. split; [done|].
      apply elem_of_registerGEPs. by exists g.
Qed.

Lemma entryLoads_nonempty mssa (f : Function) (r : TargetRegisterInfo) :
  entryLoads mssa f (registerGEPs f (VArgument 0)) r ≠ [] ↔
  readsEntryState mssa f r.
Proof.
  unfold readsEntryState. split.
  - destruct (entryLoads _ _ _ _) as [|load rest] eqn:Heq; [done|]. intros _.
    assert (Hin : load ∈ entryLoads mssa f (registerGEPs f (VArgument 0)) r)
      by (rewrite Heq; left).
    apply elem_of_entryLoads in Hin as (g & l & _ & H). by exists g, l.
  - intros (g & l & H) Hnil.
    assert (Hin : VInstruction l
                    ∈ entryLoads mssa f (registerGEPs f (VArgument 0)) r)
      by (apply elem_of_entryLoads; by exists g, l).
    rewrite Hnil in Hin. by apply not_elem_of_nil in Hin.
Qed.

(** The parameter loop emits one block per convention register, in the
    order of the table: as many entries as it meets entry-state loads. *)
Lemma registerParameters_blocks mssa (f : Function) geps :
  registerParameters mssa f geps =
    name ← parameterRegisters;
    replicate (length (entryLoads mssa f geps (parameterRegister name)))
      (IntegerRegister (parameterRegister name)).
Proof.
  unfold registerParameters, entryLoads.
  apply bind_ext_in. intros name _. cbv zeta. fold (parameterRegister name).
  apply bind_replicate. intros iter _.
  apply bind_replicate. intros use _.
  destruct (dyn_cast isLoadInst f (getUser use)); [|done].
  by destruct (isLiveOnEntryDef _).
Qed.

Lemma analyzeFunction_shape (registry : ParameterRegistry)
    (callInfo : CallInformation) (f : Function) :
  analyzeFunction registry callInfo f =
    if hasRegisterFileArgument f
    then
      let geps := registerGEPs f (VArgument 0) in
      Ok {| parameters :=
              parameters callInfo
              ++ registerParameters (getMemorySSA registry f) f geps
              ++ stackParameters f geps;
            returnValues :=
              returnValues callInfo
              ++ (IntegerRegister <$>
                    ipaFindUsedReturns registry f (usedReturns f geps)) |}
    else Fail AssertionFailure.
Proof.
  unfold analyzeFunction, hasRegisterFileArgument.
  destruct (arguments f) as [|t [|t' rest]]; [reflexivity| |reflexivity].
  destruct t as [| | | | | | | |pointee| | | |]; try reflexivity.
  destruct pointee as [| | | | | | | | |[n|] elements| | |]; try reflexivity.
Qed.

Lemma analyzeFunction_Ok_inv (registry : ParameterRegistry)
    (f : Function) (ci : CallInformation) :
  analyzeFunction registry emptyCallInformation f = Ok ci →
  let geps := registerGEPs f (VArgument 0) in
  parameters ci = registerParameters (getMemorySSA registry f) f geps ∧
  returnValues ci
  = IntegerRegister <$> ipaFindUsedReturns registry f (usedReturns f geps).
Proof.
  rewrite analyzeFunction_shape.
  destruct (hasRegisterFileArgument f); [|done].
  intros [= <-]. simpl. by rewrite stackParameters_nil, app_nil_r.
Qed.

(** C9. [analyzeFunction] ends in a failed assertion exactly for the
    functions that do not have the one register-file argument; for those
    that have it, it returns a [CallInformation]. *)
Theorem assertion_fails_iff_not_register_file
    (registry : ParameterRegistry) (callInfo : CallInformation) (f : Function) :
  (hasRegisterFileArgument f = true ↔
     ∃ elements,
       arguments f
       = [PointerType (StructType (Some "struct.x86_regs") elements)]) ∧
  (hasRegisterFileArgument f = false →
     analyzeFunction registry callInfo f = Fail AssertionFailure) ∧
  (hasRegisterFileArgument f = true →
     ∃ ci, analyzeFunction registry callInfo f = Ok ci).
Proof.
  split; [|split].
  - unfold hasRegisterFileArgument. split.
    + destruct (arguments f) as [|t [|t' rest]]; try done.
      destruct t as [| | | | | | | |pointee| | | |]; try done.
      destruct pointee as [| | | | | | | | |[n|] elements| | |]; try done.
      intros ->%String.eqb_eq. by exists elements.
    + by intros [elements ->].
  - intros H. by rewrite analyzeFunction_shape, H.
  - intros H. rewrite analyzeFunction_shape, H. eauto.
Qed.

Lemma remove_dups_replicate_app {A} `{EqDecision A} (x : A) (k : nat)
    (rest : list A) :
  x ∉ rest →
  remove_dups (replicate (S k) x ++ rest) = x :: remove_dups rest.
Proof.
  intros Hnotin. induction k as [|k IH].
  - simpl. by destruct (decide_rel elem_of x rest).
  - change (replicate (S (S k)) x ++ rest)
      with (x :: (replicate (S k) x ++ rest)).
    cbn [remove_dups].
    destruct (decide_rel elem_of x (replicate (S k) x ++ rest)) as [|Hn];
      [done|].
    exfalso. apply Hn. simpl. by left.
Qed.

(** Without the repetitions, the blocks are the registers whose block is
    not empty, in the order of the table. *)
Lemma remove_dups_blocks (names : list string) (cnt : string → nat) :
  NoDup (parameterRegister <$> names) →
  remove_dups
    (name ← names;
     replicate (cnt name) (IntegerRegister (parameterRegister name)))
  = (λ name, IntegerRegister (parameterRegister name))
      <$> filter (λ name, cnt name ≠ 0%nat) names.
Proof.
  induction names as [|n names IH]; intros Hnodup; [done|].
  rewrite fmap_cons, NoDup_cons in Hnodup. destruct Hnodup as [Hnotin Hnodup].
  rewrite bind_cons.
  assert (Hrest : IntegerRegister (parameterRegister n)
    ∉ (name ← names;
       replicate (cnt name) (IntegerRegister (parameterRegister name)))).
  { intros (m & Hin & Hm)%list_elem_of_bind.
    apply elem_of_replicate in Hin as [[= Heq] _].
    apply Hnotin. rewrite Heq. by apply list_elem_of_fmap_2. }
  destruct (cnt n) as [|k] eqn:Hk.
  - rewrite filter_cons_False by (rewrite Hk; auto). simpl. by apply IH.
  - rewrite filter_cons_True by (rewrite Hk; auto).
    rewrite remove_dups_replicate_app by done.
    rewrite fmap_cons. f_equal. by apply IH.
Qed.

(** C1, as the code has it. A convention register is among the recovered
    parameters exactly when some load through one of its access paths sees
    the entry memory state. The parameters come in blocks, one per
    register of the table rdi, rsi, rdx, rcx, r8, r9, in that order,
    whatever the order of the loads in the body; a block holds the
    register once for every entry-state load, and repetitions apart the
    parameters are the registers read at entry state, in the order of the
    table. With one entry-state load through rdi and one through rdx, and
    none through the others, they are rdi, rdx. *)
Theorem register_parameters_in_convention_order
    (registry : ParameterRegistry) (f : Function) (ci : CallInformation) :
  analyzeFunction registry emptyCallInformation f = Ok ci →
  let mssa := getMemorySSA registry f in
  let reads name :=
    length (entryLoads mssa f (registerGEPs f (VArgument 0))
              (parameterRegister name)) in
  (∀ r, IntegerRegister r ∈ parameters ci ↔
        ∃ name, name ∈ parameterRegisters ∧ r = parameterRegister name ∧
                readsEntryState mssa f r) ∧
  (∀ name, reads name ≠ 0%nat ↔ readsEntryState mssa f (parameterRegister name)) ∧
  parameters ci =
    (name ← parameterRegisters;
     replicate (reads name) (IntegerRegister (parameterRegister name))) ∧
  (NoDup (parameterRegister <$> parameterRegisters) →
   remove_dups (parameters ci)
   = (λ name, IntegerRegister (parameterRegister name))
       <$> filter (λ name, reads name ≠ 0%nat) parameterRegisters) ∧
  (reads <$> parameterRegisters = [1; 0; 1; 0; 0; 0]%nat →
   parameters ci = [IntegerRegister (parameterRegister "rdi");
                    IntegerRegister (parameterRegister "rdx")]).
Proof.
  intros [Hparams _]%analyzeFunction_Ok_inv mssa reads.
  rewrite registerParameters_blocks in Hparams. fold mssa in Hparams.
  assert (Hreads : ∀ name,
    reads name ≠ 0%nat ↔ readsEntryState mssa f (parameterRegister name)).
  { intros name. rewrite <- entryLoads_nonempty. unfold reads.
    by destruct (entryLoads _ _ _ _). }
  split; [|split; [done|split; [done|split]]].
  - intros r. rewrite Hparams, list_elem_of_bind. split.
    + intros (name & Hin & Hname).
      apply elem_of_replicate in Hin as [[= ->] Hne].
      exists name. split; [done|]. split; [done|]. by apply Hreads.
    + intros (name & Hname & -> & Hread). exists name. split; [|done].
      apply elem_of_replicate. split; [done|]. by apply Hreads.
  - intros Hnodup. rewrite Hparams. by apply remove_dups_blocks.
  - intros Hcount. rewrite Hparams.
    injection Hcount as Hrdi Hrsi Hrdx Hrcx Hr8 Hr9.
    unfold parameterRegisters. simpl.
    fold (reads "rdi") (reads "rsi") (reads "rdx")
         (reads "rcx") (reads "r8") (reads "r9").
    by rewrite Hrdi, Hrsi, Hrdx, Hrcx, Hr8, Hr9.
Qed.

Lemma two_members_length {A} (l : list A) (x y : A) :
  x ∈ l → y ∈ l → x ≠ y → (2 ≤ length l)%nat.
Proof.
  destruct l as [|a [|b l]]; simpl; intros Hx Hy Hne; [|exfalso|lia].
  - by apply not_elem_of_nil in Hx.
  - apply list_elem_of_singleton in Hx, Hy. congruence.
Qed.

Lemma filter_replicate_same {A} `{EqDecision A} (x : A) (k : nat) :
  filter (λ v, v = x) (replicate k x) = replicate k x.
Proof.
  induction k as [|k IH]; [done|]. simpl.
  by rewrite filter_cons_True, IH.
Qed.

Lemma filter_replicate_other {A} `{EqDecision A} (x y : A) (k : nat) :
  y ≠ x → filter (λ v, v = x) (replicate k y) = [].
Proof.
  intros Hne. induction k as [|k IH]; [done|]. simpl.
  by rewrite filter_cons_False.
Qed.

Lemma filter_block_other (names : list string) (cnt : string → nat)
    (r : TargetRegisterInfo) :
  r ∉ parameterRegister <$> names →
  filter (λ v, v = IntegerRegister r)
    (name ← names; replicate (cnt name) (IntegerRegister (parameterRegister name)))
  = [].
Proof.
  induction names as [|n names IH]; intros Hnotin; [done|].
  rewrite fmap_cons, not_elem_of_cons in Hnotin. destruct Hnotin as [Hne Hnotin].
  rewrite bind_cons, filter_app, IH, app_nil_r by done.
  apply filter_replicate_other. congruence.
Qed.

Lemma filter_block_count (names : list string) (cnt : string → nat)
    (name : string) :
  NoDup (parameterRegister <$> names) → name ∈ names →
  length (filter (λ v, v = IntegerRegister (parameterRegister name))
            (n ← names; replicate (cnt n) (IntegerRegister (parameterRegister n))))
  = cnt name.
Proof.
  induction names as [|n names IH]; intros Hnodup Hin.
  { by apply not_elem_of_nil in Hin. }
  rewrite fmap_cons, NoDup_cons in Hnodup. destruct Hnodup as [Hnotin Hnodup].
  rewrite bind_cons, filter_app, length_app.
  destruct (decide (name = n)) as [->|Hne].
  - rewrite filter_block_other by done. simpl. rewrite Nat.add_0_r.
    by rewrite filter_replicate_same, length_replicate.
  - apply elem_of_cons in Hin as [?|Hin]; [done|].
    rewrite IH by done.
    assert (Hreg : parameterRegister n ≠ parameterRegister name).
    { intros Heq. apply Hnotin. rewrite Heq.
      by apply list_elem_of_fmap_2. }
    rewrite filter_replicate_other; [done|]. congruence.
Qed.

(** C2, as the code has it. The access paths are kept under the register
    that the target model reports for them, and each convention register
    is looked up under its largest enclosing register; nothing is
    coalesced: the parameters hold one entry of a convention register for
    every entry-state load through the access paths kept under it, so two
    such loads (a sub-register path and the full path both kept under
    rdi, or one path loaded twice) give two entries. *)
Theorem one_entry_per_entry_state_load
    (registry : ParameterRegistry) (f : Function) (ci : CallInformation)
    (name : string) :
  analyzeFunction registry emptyCallInformation f = Ok ci →
  name ∈ parameterRegisters →
  NoDup (parameterRegister <$> parameterRegisters) →
  let mssa := getMemorySSA registry f in
  let r := parameterRegister name in
  let entries := filter (λ v, v = IntegerRegister r) (parameters ci) in
  length entries
  = length (entryLoads mssa f (registerGEPs f (VArgument 0)) r) ∧
  (∀ gep, (r, gep) ∈ registerGEPs f (VArgument 0) ↔
          ∃ g i, gep = VInstruction g ∧ body f !! g = Some i ∧
                 isGetElementPtrInst i = true ∧
                 VArgument 0 ∈ getOperands i ∧ registerInfo i = Some r) ∧
  (∀ g1 g2 l1 l2,
     l1 ≠ l2 →
     accessPath f r g1 → accessPath f r g2 →
     body f !! l1 = Some (LoadInst (VInstruction g1)) →
     body f !! l2 = Some (LoadInst (VInstruction g2)) →
     isLiveOnEntryDef (getDefiningAccess mssa (VInstruction l1)) = true →
     isLiveOnEntryDef (getDefiningAccess mssa (VInstruction l2)) = true →
     (2 ≤ length entries)%nat).
Proof.
  intros [Hparams _]%analyzeFunction_Ok_inv Hname Hnodup mssa r entries.
  rewrite registerParameters_blocks in Hparams. fold mssa in Hparams.
  assert (Hcount : length entries
    = length (entryLoads mssa f (registerGEPs f (VArgument 0)) r)).
  { unfold entries. rewrite Hparams.
    exact (filter_block_count parameterRegisters
             (λ n, length (entryLoads mssa f (registerGEPs f (VArgument 0))
                             (parameterRegister n))) name Hnodup Hname). }
  split; [done|]. split.
  - intros gep. rewrite elem_of_registerGEPs. unfold accessPath. split.
    + intros (g & -> & i & H). by exists g, i.
    + intros (g & i & -> & H). exists g. split; [done|]. by exists i.
  - intros g1 g2 l1 l2 Hne Hp1 Hp2 Hl1 Hl2 Hlive1 Hlive2. rewrite Hcount.
    apply (two_members_length _ (VInstruction l1) (VInstruction l2)).
    + apply elem_of_entryLoads. by exists g1, l1.
    + apply elem_of_entryLoads. by exists g2, l2.
    + congruence.
Qed.

Lemma elem_of_storeUsers (f : Function) (r : TargetRegisterInfo) (s : Value) :
  s ∈ storeUsers f (registerGEPs f (VArgument 0)) r ↔
  ∃ g n v q, s = VInstruction n ∧ accessPath f r g ∧
             body f !! n = Some (StoreInst v q) ∧
             (v = VInstruction g ∨ q = VInstruction g).
Proof.
  unfold storeUsers. rewrite list_elem_of_bind. split.
  - intros ([r' gep] & Hin & Hiter).
    apply elem_of_equal_range in Hiter as [Hkey Hgep]. simpl in Hkey. subst r'.
    apply elem_of_registerGEPs in Hgep as (g & -> & Hpath).
    apply list_elem_of_bind in Hin as (u & Hin & Hu). simpl in Hu.
    apply elem_of_uses in Hu as (n & i & Hlook & Hop & ->). simpl in Hin.
    unfold isa in Hin.
    destruct (dyn_cast isStoreInst f (VInstruction n)) as [w|] eqn:Hcast;
      [|by apply not_elem_of_nil in Hin].
    apply dyn_cast_Some in Hcast as (-> & i' & Hi' & Hisstore).
    simpl in Hi'. rewrite Hlook in Hi'. injection Hi' as <-.
    apply list_elem_of_singleton in Hin as ->.
    apply isStoreInst_inv in Hisstore as (v & q & ->). simpl in Hop.
    exists g, n, v, q. split; [done|]. split; [done|]. split; [done|].
    apply elem_of_cons in Hop as [<-|Hop]; [by left|].
    apply list_elem_of_singleton in Hop as <-. by right.
  - intros (g & n & v & q & -> & Hpath & Hlook & Hop).
    exists (r, VInstruction g). split.
    + apply list_elem_of_bind.
      exists {| get := VInstruction g; getUser := VInstruction n |}. split.
      * unfold isa, dyn_cast. simpl. rewrite Hlook. simpl.
        by apply list_elem_of_singleton.
      * apply elem_of_uses. exists n, (StoreInst v q).
        split; [done|]. split; [|done]. simpl.
        destruct Hop as [->| ->]; [by left|]. right. by left.
    + apply elem_of_equal_range. split; [done|].
      apply elem_of_registerGEPs. by exists g.
Qed.

Lemma storeUsers_nonempty (f : Function) (r : TargetRegisterInfo) :
  storeUsers f (registerGEPs f (VArgument 0)) r ≠ [] ↔ storeUsesRegister f r.
Proof.
  unfold storeUsesRegister. split.
  - destruct (storeUsers _ _ _) as [|s rest] eqn:Heq; [done|]. intros _.
    assert (Hin : s ∈ storeUsers f (registerGEPs f (VArgument 0)) r)
      by (rewrite Heq; left).
    apply elem_of_storeUsers in Hin as (g & n & v & q & _ & H).
    by exists g, n, v, q.
  - intros (g & n & v & q & H) Hnil.
    assert (Hin : VInstruction n
                    ∈ storeUsers f (registerGEPs f (VArgument 0)) r)
      by (apply elem_of_storeUsers; by exists g, n, v, q).
    rewrite Hnil in Hin. by apply not_elem_of_nil in Hin.
Qed.

(** The return-register loop collects one block of candidates per return
    register, in the order of the table. *)
Lemma usedReturns_blocks (f : Function) geps :
  usedReturns f geps =
    name ← returnRegisters;
    replicate (length (storeUsers f geps (registerNamed name)))
      (registerNamed name).
Proof.
  unfold usedReturns, storeUsers.
  apply bind_ext_in. intros name _. cbv zeta.
  apply bind_replicate. intros iter _.
  apply bind_replicate. intros use _.
  by destruct (isa isStoreInst f (getUser use)).
Qed.

Lemma sublist_replicate {A} (l : list A) (n : nat) (x : A) :
  l `sublist_of` replicate n x → l = replicate (length l) x.
Proof.
  intros Hsub. symmetry. apply replicate_as_elem_of. split; [done|].
  intros y Hy. eapply elem_of_replicate_inv, sublist_subseteq; done.
Qed.

(** C4, as the code has it. The candidates are the return registers that
    a store uses an access path of, as the address it writes to or as the
    value it stores (so every return register written through one of its
    access paths is among them), collected rax first, then rdx. The return
    values emitted are the registers that the return-usage query answers
    for these candidates, in the order of its answer; when the query keeps
    confirmed candidates, they are candidates, rax before rdx. *)
Theorem return_candidates_and_confirmed_order
    (registry : ParameterRegistry) (f : Function) (ci : CallInformation) :
  analyzeFunction registry emptyCallInformation f = Ok ci →
  let geps := registerGEPs f (VArgument 0) in
  let candidates := usedReturns f geps in
  let rax := registerNamed "rax" in
  let rdx := registerNamed "rdx" in
  (∀ r, r ∈ candidates ↔
        ∃ name, name ∈ returnRegisters ∧ r = registerNamed name ∧
                storeUsesRegister f r) ∧
  (∀ name, name ∈ returnRegisters →
           writesRegister f (registerNamed name) →
           registerNamed name ∈ candidates) ∧
  candidates
  = replicate (length (storeUsers f geps rax)) rax
    ++ replicate (length (storeUsers f geps rdx)) rdx ∧
  returnValues ci
  = (IntegerRegister <$> ipaFindUsedReturns registry f candidates) ∧
  (keepsConfirmedCandidates registry →
   (∀ r, IntegerRegister r ∈ returnValues ci → r ∈ candidates) ∧
   ∃ i j, returnValues ci
          = replicate i (IntegerRegister rax)
            ++ replicate j (IntegerRegister rdx)).
Proof.
  intros [_ Hrets]%analyzeFunction_Ok_inv geps candidates rax rdx.
  fold geps candidates in Hrets.
  assert (Hblocks : candidates
    = replicate (length (storeUsers f geps rax)) rax
      ++ replicate (length (storeUsers f geps rdx)) rdx).
  { unfold candidates. rewrite usedReturns_blocks.
    unfold returnRegisters. simpl. by rewrite app_nil_r. }
  assert (Hmem : ∀ r, r ∈ candidates ↔
        ∃ name, name ∈ returnRegisters ∧ r = registerNamed name ∧
                storeUsesRegister f r).
  { intros r. unfold candidates.
    rewrite usedReturns_blocks, list_elem_of_bind. split.
    - intros (name & Hin & Hname).
      apply elem_of_replicate in Hin as [-> Hne].
      exists name. split; [done|]. split; [done|].
      apply storeUsers_nonempty. fold geps. intros Hnil.
      by rewrite Hnil in Hne.
    - intros (name & Hname & -> & Hstore). exists name. split; [|done].
      apply elem_of_replicate. split; [done|].
      apply storeUsers_nonempty in Hstore. fold geps in Hstore.
      by destruct (storeUsers f geps (registerNamed name)). }
  split; [done|]. split; [|split; [done|split; [done|]]].
  - intros name Hname (g & s & v & Hpath & Hlook). apply Hmem.
    exists name. split; [done|]. split; [done|].
    exists g, s, v, (VInstruction g). split; [done|]. split; [done|]. by right.
  - intros Hkeeps. specialize (Hkeeps f candidates).
    set (answer := ipaFindUsedReturns registry f candidates) in *.
    clearbody answer. split.
    + intros r. rewrite Hrets. intros (r' & [= <-] & Hin)%list_elem_of_fmap.
      eapply sublist_subseteq; done.
    + rewrite Hblocks in Hkeeps.
      apply sublist_app_r in Hkeeps as (l1 & l2 & -> & Hl1 & Hl2).
      apply sublist_replicate in Hl1, Hl2.
      exists (length l1), (length l2).
      rewrite Hrets, fmap_app, Hl1, Hl2.
      by rewrite !fmap_replicate, !length_replicate.
Qed.

End Dataflow.

(** * The theorems at the concrete target *)

Example matches_elf64_x86 :
  matches "i38x86" "      ELF 64" = Ok true ∧
  matches "x86" "ELF 64" = Ok false ∧
  matches "x86_64" "ELF 64" = Ok false ∧
  matches "x8" "ELF 64" = Fail OutOfRange.
Proof. repeat split. Qed.

Example written_register_is_not_a_parameter :
  analyzeFunction (x86Registry false (λ _, true)) emptyCallInformation
    writes_rdi_then_reads
  = Ok (x86CallInformation false [] []).
Proof. reflexivity. Qed.

Example stack_offset_8 :
  analyzeFunction (x86Registry false (λ _, true)) emptyCallInformation
    reads_stack_8
  = Ok (x86CallInformation false [] []) ∧
  stackParameters_getUser (TI := x86TargetInfo false) reads_stack_8
    (registerGEPs reads_stack_8 (VArgument 0))
  = [].
Proof. split; reflexivity. Qed.

Example unconfirmed_candidate_is_not_returned :
  usedReturns (TI := x86TargetInfo false) writes_rdx_then_rax
    (registerGEPs writes_rdx_then_rax (VArgument 0))
  = ["rax"; "rdx"] ∧
  analyzeFunction (x86Registry false (λ r, String.eqb r "rdx"))
    emptyCallInformation writes_rdx_then_rax
  = Ok (x86CallInformation false [] ["rdx"]).
Proof. split; reflexivity. Qed.

Lemma integer_takes_ceil_registers_witness :
  (registersFor 128 ≤ 3)%nat ∧
  registerEntries (TI := x86TargetInfo false) ["rdi"; "rsi"]
  = [] ++ registerEntries (take (registersFor 128) ["rdi"; "rsi"; "rdx"]) ∧
  ["rdx"] = drop (registersFor 128) ["rdi"; "rsi"; "rdx"].
Proof.
  exact (proj1 (proj2 (@integer_takes_ceil_registers (x86TargetInfo false)))
           [] ["rdi"; "rsi"; "rdx"] 128
           (registerEntries ["rdi"; "rsi"]) ["rdx"] eq_refl).
Defined.

Lemma exhausted_cursor_fails_and_keeps_entries_witness :
  cursorExhausted (TI := x86TargetInfo false) nine_integers = true ∧
  ∃ out,
    analyzeFunctionType (TI := x86TargetInfo false)
      emptyCallInformation nine_integers = (false, out) ∧
    parameters out = registerEntries parameterRegisters.
Proof.
  split; [reflexivity|].
  destruct (@exhausted_cursor_fails_and_keeps_entries (x86TargetInfo false)
              emptyCallInformation nine_integers eq_refl)
    as (out & Hout & n & Hn & Hrest).
  exists out. split; [exact Hout|].
  injection Hn as <-. exact (proj1 Hrest).
Defined.

(** C5, as the spec has it, fails: nine 64-bit integer parameters are
    answered [false], and the [CallInformation] that was filled carries
    the six registers assigned to the first six of them. *)
Lemma nine_integers_leave_partial_assignment :
  analyzeFunctionType emptyCallInformation nine_integers
  = (false,
     x86CallInformation false ["rdi"; "rsi"; "rdx"; "rcx"; "r8"; "r9"] []) ∧
  (analyzeFunctionType (TI := x86TargetInfo false)
     emptyCallInformation nine_integers).2 ≠ emptyCallInformation.
Proof. split; [reflexivity|]. intros H. discriminate H. Qed.

Lemma other_types_are_unrepresentable_witness :
  (analyzeFunctionType (TI := x86TargetInfo false) emptyCallInformation
     {| getReturnType := i64; params := [i64; DoubleTy; i64] |}).1 = false.
Proof.
  apply (proj1 (@other_types_are_unrepresentable (x86TargetInfo false))).
  right. exists DoubleTy. split; [|reflexivity].
  apply list_elem_of_lookup. by exists 1%nat.
Defined.

Lemma assertion_fails_iff_not_register_file_witness :
  analyzeFunction (x86Registry false (λ _, true)) emptyCallInformation
    takes_an_integer = Fail AssertionFailure ∧
  ∃ ci, analyzeFunction (x86Registry false (λ _, true)) emptyCallInformation
          reads_rdx_then_rdi = Ok ci.
Proof.
  split.
  - exact (proj1 (proj2 (assertion_fails_iff_not_register_file
             (x86Registry false (λ _, true)) emptyCallInformation
             takes_an_integer)) eq_refl).
  - exact (proj2 (proj2 (assertion_fails_iff_not_register_file
             (x86Registry false (λ _, true)) emptyCallInformation
             reads_rdx_then_rdi)) eq_refl).
Defined.

Lemma register_parameters_in_convention_order_witness :
  analyzeFunction (x86Registry false (λ _, true)) emptyCallInformation
    reads_rdx_then_rdi
  = Ok (x86CallInformation false ["rdi"; "rdx"] []) ∧
  parameters (x86CallInformation false ["rdi"; "rdx"] [])
  = [IntegerRegister (parameterRegister "rdi");
     IntegerRegister (parameterRegister "rdx")].
Proof.
  split; [reflexivity|].
  exact (proj2 (proj2 (proj2 (proj2 (register_parameters_in_convention_order
           (x86Registry false (λ _, true)) reads_rdx_then_rdi
           (x86CallInformation false ["rdi"; "rdx"] []) eq_refl)))) eq_refl).
Defined.

(** C1, as the spec has it, fails at [reads_rdi_rdi_rdx], which reads rdi
    and rdx and not rsi: the two entry-state loads of rdi give rdi twice,
    so the parameters are rdi, rdi, rdx and not rdi, rdx, whichever
    register the target model reports for sub-register paths. *)
Lemma repeated_read_repeats_the_parameter :
  analyzeFunction (x86Registry false (λ _, true)) emptyCallInformation
    reads_rdi_rdi_rdx
  = Ok (x86CallInformation false ["rdi"; "rdi"; "rdx"] []) ∧
  analyzeFunction (x86Registry true (λ _, true)) emptyCallInformation
    reads_rdi_rdi_rdx
  = Ok (x86CallInformation true ["rdi"; "rdi"; "rdx"] []) ∧
  ∀ b, parameters (x86CallInformation b ["rdi"; "rdi"; "rdx"] [])
       ≠ parameters (x86CallInformation b ["rdi"; "rdx"] []).
Proof. repeat split; try reflexivity. intros b H. discriminate H. Qed.

(** C2, as the spec has it, fails at [reads_edi_and_rdi]. When the target
    model reports the enclosing register for the sub-register path, both
    paths are kept under rdi and the parameters hold rdi twice. When it
    reports the sub-register itself, the sub-register path is kept under
    edi, not under its largest enclosing register rdi. One access path of
    rdi loaded twice gives rdi twice under either. *)
Lemma sub_register_and_full_read_not_coalesced :
  analyzeFunction (x86Registry true (λ _, true)) emptyCallInformation
    reads_edi_and_rdi
  = Ok (x86CallInformation true ["rdi"; "rdi"] []) ∧
  (registerGEPs (TI := x86TargetInfo false) reads_edi_and_rdi (VArgument 0)
   = [("edi", VInstruction 0); ("rdi", VInstruction 2)] ∧
   x86_largestOverlappingRegister "edi" = "rdi") ∧
  analyzeFunction (x86Registry false (λ _, true)) emptyCallInformation
    reads_rdi_twice
  = Ok (x86CallInformation false ["rdi"; "rdi"] []) ∧
  analyzeFunction (x86Registry true (λ _, true)) emptyCallInformation
    reads_rdi_twice
  = Ok (x86CallInformation true ["rdi"; "rdi"] []) ∧
  ∀ b, ¬ NoDup (parameters (x86CallInformation b ["rdi"; "rdi"] [])).
Proof.
  repeat split; try reflexivity.
  intros b [Hnotin _]%NoDup_cons. apply Hnotin. by left.
Qed.

Lemma one_entry_per_entry_state_load_witness :
  analyzeFunction (x86Registry true (λ _, true)) emptyCallInformation
    reads_edi_and_rdi
  = Ok (x86CallInformation true ["rdi"; "rdi"] []) ∧
  (2 ≤ length (filter (λ v, v = IntegerRegister (parameterRegister "rdi"))
                 (parameters (x86CallInformation true ["rdi"; "rdi"] []))))%nat.
Proof.
  split; [reflexivity|].
  refine (proj2 (proj2 (one_entry_per_entry_state_load
            (x86Registry true (λ _, true)) reads_edi_and_rdi
            (x86CallInformation true ["rdi"; "rdi"] []) "rdi" eq_refl _ _))
            0%nat 2%nat 1%nat 3%nat _ _ _ eq_refl eq_refl eq_refl eq_refl).
  - apply list_elem_of_lookup. by exists 0%nat.
  - apply (bool_decide_unpack _). reflexivity.
  - discriminate.
  - exists (subFieldAddress 5). repeat split. by left.
  - exists (fieldAddress 5). repeat split. by left.
Defined.

(** C3, at a function that reads the stack at offset 16 from the entry
    stack pointer: [analyzeFunction] reports no parameter. Looking for the
    constant in the user of the loaded stack pointer gives the stack
    parameter at offset 16. *)
Theorem stack_read_at_16_is_not_reported :
  analyzeFunction (x86Registry false (λ _, true)) emptyCallInformation
    reads_stack_16
  = Ok (x86CallInformation false [] []) ∧
  stackParameters_getUser (TI := x86TargetInfo false) reads_stack_16
    (registerGEPs reads_stack_16 (VArgument 0))
  = [Stack 16].
Proof. split; reflexivity. Qed.

Lemma x86Registry_keeps (attributeToLargest : bool) (confirmed : string → bool) :
  keepsConfirmedCandidates (x86Registry attributeToLargest confirmed).
Proof. intros f candidates. apply sublist_filter. Qed.

(** C4, as the spec has it, fails. At [stores_rax_address] no store
    writes through an access path of rax, yet rax is a candidate and,
    once confirmed, a return value: the loop asks only whether a user of
    the path is a store. And the order of the return values is the order
    of the query's answer: at [writes_rdx_then_rax] a query that answers
    its candidates in the opposite order gives rdx before rax. *)
Lemma stored_address_is_a_candidate_and_order_is_the_answer :
  ¬ writesRegister (TI := x86TargetInfo false) stores_rax_address "rax" ∧
  usedReturns (TI := x86TargetInfo false) stores_rax_address
    (registerGEPs stores_rax_address (VArgument 0))
  = ["rax"] ∧
  analyzeFunction (x86Registry false (λ _, true)) emptyCallInformation
    stores_rax_address
  = Ok (x86CallInformation false [] ["rax"]) ∧
  analyzeFunction x86ReversingRegistry emptyCallInformation writes_rdx_then_rax
  = Ok (x86CallInformation false [] ["rdx"; "rax"]).
Proof.
  split; [|repeat split; reflexivity].
  intros (g & s & v & _ & Hlook).
  destruct s as [|[|s]]; simpl in Hlook; discriminate Hlook.
Qed.

Lemma return_candidates_and_confirmed_order_witness :
  analyzeFunction (x86Registry false (λ r, String.eqb r "rax"))
    emptyCallInformation writes_rdx_then_rax
  = Ok (x86CallInformation false [] ["rax"]) ∧
  ∃ i j,
    returnValues (x86CallInformation false [] ["rax"])
    = replicate i (IntegerRegister (registerNamed "rax"))
      ++ replicate j (IntegerRegister (registerNamed "rdx")).
Proof.
  split; [reflexivity|].
  exact (proj2 (proj2 (proj2 (proj2 (proj2
           (return_candidates_and_confirmed_order
              (x86Registry false (λ r, String.eqb r "rax")) writes_rdx_then_rax
              (x86CallInformation false [] ["rax"]) eq_refl))))
           (x86Registry_keeps false (λ r, String.eqb r "rax")))).
Defined.

(** * Further properties of the static classification *)

Section StaticClassificationMore.
Context `{TI : TargetInfo}.

Lemma paramsFit_iff (avail : nat) (ts : list LType) :
  paramsFit avail ts = true ↔
  Forall (λ t, isUnrepresentable t = false) ts ∧ (totalNeeded ts ≤ avail)%nat.
Proof.
  revert avail. induction ts as [|t ts IH]; intros avail.
  - simpl. split; [|done]. intros _. split; [constructor|lia].
  - rewrite Forall_cons. unfold totalNeeded. simpl. fold (totalNeeded ts).
    unfold isUnrepresentable at 1.
    destruct (registersNeeded t) as [n|]; simpl.
    + destruct (Nat.leb_spec n avail) as [Hle|Hgt].
      * rewrite IH. split; intros [H1 H2]; (split; [|lia]); tauto.
      * split; [done|]. intros [_ H]. lia.
    + split; [done|]. by intros [[? _] _].
Qed.

(** X1. [analyzeFunctionType] answers [true] exactly for the signatures
    whose return type is an integer, a pointer or void that fits in two
    registers, and whose parameter types are all integers, pointers or
    void and together fit in six registers. *)
Theorem analyzeFunctionType_true_iff
    (fillOut : CallInformation) (type : FunctionType) :
  (analyzeFunctionType fillOut type).1 = true ↔
  ∃ n, registersNeeded (getReturnType type) = Some n ∧ (n ≤ 2)%nat ∧
       Forall (λ t, isUnrepresentable t = false) (params type) ∧
       (totalNeeded (params type) ≤ 6)%nat.
Proof.
  rewrite analyzeFunctionType_return.
  destruct (registersNeeded (getReturnType type)) as [n|].
  - rewrite andb_true_iff, bool_decide_eq_true, paramsFit_iff. split.
    + intros [Hn [Hall Htotal]]. by exists n.
    + intros (n' & [= <-] & Hn & Hall & Htotal). done.
  - split; [done|]. by intros (n & Hn & _).
Qed.

Lemma analyzeFunctionType_success_inv fillOut type out :
  analyzeFunctionType fillOut type = (true, out) →
  ∃ n, registersNeeded (getReturnType type) = Some n ∧ (n ≤ 2)%nat ∧
       paramsFit 6 (params type) = true ∧
       returnValues out
       = returnValues fillOut ++ registerEntries (take n returnRegisters) ∧
       parameters out
       = parameters fillOut
         ++ registerEntries (take (totalNeeded (params type)) parameterRegisters).
Proof.
  intros H.
  pose proof (analyzeFunctionType_return fillOut type) as Hret.
  rewrite H in Hret. simpl in Hret.
  unfold analyzeFunctionType in H. rewrite addEntriesForType_spec in H.
  destruct (registersNeeded (getReturnType type)) as [n|]; [|done].
  symmetry in Hret. apply andb_true_iff in Hret as [Hn Hfit].
  apply bool_decide_eq_true in Hn.
  cbv zeta in H. change (length returnRegisters) with 2%nat in H.
  rewrite bool_decide_eq_true_2 in H by done. simpl in H.
  destruct (analyzeFunctionType_params_success (parameters fillOut)
              parameterRegisters (params type) Hfit) as [Heq _].
  rewrite Heq in H. injection H as <-. simpl.
  exists n. rewrite Nat.min_l by done. done.
Qed.

(** X2. A signature that is classified gets the first registers of each
    table and no others: the return values gained are the first registers
    of rax, rdx that the return type needs, the parameters gained are the
    first registers of rdi, rsi, rdx, rcx, r8, r9, as many as the
    parameter types need together. *)
Theorem classified_signature_takes_table_prefixes
    (fillOut out : CallInformation) (type : FunctionType) :
  analyzeFunctionType fillOut type = (true, out) →
  ∃ n, registersNeeded (getReturnType type) = Some n ∧
       returnValues out
       = returnValues fillOut ++ registerEntries (take n returnRegisters) ∧
       parameters out
       = parameters fillOut
         ++ registerEntries (take (totalNeeded (params type)) parameterRegisters) ∧
       length (returnValues out) = (length (returnValues fillOut) + n)%nat ∧
       length (parameters out)
       = (length (parameters fillOut) + totalNeeded (params type))%nat.
Proof.
  intros (n & Hn & Hle & Hfit & Hrets & Hparams)%analyzeFunctionType_success_inv.
  apply paramsFit_iff in Hfit as [_ Htotal].
  exists n. split; [done|]. split; [done|]. split; [done|].
  rewrite Hrets, Hparams, !length_app. unfold registerEntries.
  rewrite !length_fmap, !length_take.
  change (length returnRegisters) with 2%nat.
  change (length parameterRegisters) with 6%nat. lia.
Qed.

Lemma addEntriesForType_from_nil into regIter t :
  addEntriesForType into regIter t =
    let '(ok, entries, rest) := addEntriesForType [] regIter t in
    (ok, into ++ entries, rest).
Proof.
  rewrite !addEntriesForType_spec.
  destruct (registersNeeded t); simpl; by rewrite ?app_nil_r.
Qed.

Lemma analyzeFunctionType_params_from_nil into iter ts :
  analyzeFunctionType_params into iter ts =
    let '(ok, entries) := analyzeFunctionType_params [] iter ts in
    (ok, into ++ entries).
Proof.
  revert into iter. induction ts as [|t ts IH]; intros into iter; simpl.
  - by rewrite app_nil_r.
  - rewrite (addEntriesForType_from_nil into).
    destruct (addEntriesForType [] iter t) as [[ok entries] rest]. simpl.
    destruct ok; simpl; [|done].
    rewrite (IH (into ++ entries)), (IH entries).
    destruct (analyzeFunctionType_params [] rest ts) as [ok' entries'].
    by rewrite app_assoc.
Qed.

(** X3. What [analyzeFunctionType] does to a [CallInformation] that
    already holds entries is what it does to an empty one, after those
    entries: the answer and the registers assigned do not depend on what
    [fillOut] holds, and nothing that it holds is removed or reordered. *)
Theorem analyzeFunctionType_appends
    (fillOut : CallInformation) (type : FunctionType) :
  analyzeFunctionType fillOut type =
    ((analyzeFunctionType emptyCallInformation type).1,
     appendCallInformation fillOut
       (analyzeFunctionType emptyCallInformation type).2).
Proof.
  unfold analyzeFunctionType, appendCallInformation.
  rewrite (addEntriesForType_from_nil (returnValues fillOut)). simpl.
  destruct (addEntriesForType [] returnRegisters (getReturnType type))
    as [[ok rets] rest].
  destruct ok; simpl.
  - rewrite (analyzeFunctionType_params_from_nil (parameters fillOut)).
    by destruct (analyzeFunctionType_params [] parameterRegisters (params type)).
  - by rewrite app_nil_r.
Qed.

Lemma analyzeFunctionType_params_prefix into iter ts :
  ∃ k, (analyzeFunctionType_params into iter ts).2
       = into ++ registerEntries (take k iter).
Proof.
  revert into iter. induction ts as [|t ts IH]; intros into iter; simpl.
  - exists 0%nat. by rewrite take_0, app_nil_r.
  - rewrite addEntriesForType_spec.
    destruct (registersNeeded t) as [n|]; cbv zeta.
    + case_bool_decide as Hle; simpl.
      * rewrite Nat.min_l by done.
        destruct (IH (into ++ registerEntries (take n iter)) (drop n iter))
          as [k ->].
        exists (n + k)%nat.
        by rewrite <- app_assoc, <- registerEntries_app, take_take_drop.
      * by exists (n `min` length iter)%nat.
    + simpl. exists 0%nat. by rewrite take_0, app_nil_r.
Qed.

(** X4. Whatever it answers, [analyzeFunctionType] only appends integer
    registers taken from the start of the two tables: the parameters
    gained are a prefix of rdi, rsi, rdx, rcx, r8, r9 (at most six), the
    return values gained a prefix of rax, rdx (at most two); it never adds
    a stack slot or a floating-point register. *)
Theorem analyzeFunctionType_adds_table_prefixes
    (fillOut : CallInformation) (type : FunctionType) :
  ∃ ps rs,
    parameters (analyzeFunctionType fillOut type).2
    = parameters fillOut ++ registerEntries ps ∧
    returnValues (analyzeFunctionType fillOut type).2
    = returnValues fillOut ++ registerEntries rs ∧
    ps `prefix_of` parameterRegisters ∧ rs `prefix_of` returnRegisters ∧
    (length ps ≤ 6)%nat ∧ (length rs ≤ 2)%nat.
Proof.
  assert (Hbounds : ∀ (ps rs : list string),
    ps `prefix_of` parameterRegisters → rs `prefix_of` returnRegisters →
    ps `prefix_of` parameterRegisters ∧ rs `prefix_of` returnRegisters ∧
    (length ps ≤ 6)%nat ∧ (length rs ≤ 2)%nat).
  { intros ps rs Hps Hrs. split; [done|]. split; [done|].
    apply prefix_length in Hps, Hrs. done. }
  unfold analyzeFunctionType. rewrite addEntriesForType_spec.
  destruct (registersNeeded (getReturnType type)) as [n|]; cbv zeta.
  - change (length returnRegisters) with 2%nat.
    case_bool_decide as Hle; simpl.
    + destruct (analyzeFunctionType_params_prefix (parameters fillOut)
                  parameterRegisters (params type)) as [k Hk].
      destruct (analyzeFunctionType_params _ _ _) as [ok ps]. simpl in *.
      exists (take k parameterRegisters), (take (n `min` 2) returnRegisters).
      split; [done|]. split; [done|]. apply Hbounds; apply prefix_take.
    + exists [], (take (n `min` 2) returnRegisters). simpl.
      rewrite app_nil_r. split; [done|]. split; [done|].
      apply Hbounds; [apply prefix_nil|apply prefix_take].
  - simpl. exists [], []. simpl. rewrite !app_nil_r.
    split; [done|]. split; [done|]. apply Hbounds; apply prefix_nil.
Qed.

Lemma totalNeeded_Permutation (ps qs : list LType) :
  ps ≡ₚ qs → totalNeeded ps = totalNeeded qs.
Proof.
  induction 1 as [|t ps qs _ IH|t t' ps|ps qs rs _ IH1 _ IH2].
  - done.
  - unfold totalNeeded in *. simpl. by rewrite IH.
  - unfold totalNeeded. simpl. lia.
  - by rewrite IH1.
Qed.

Lemma paramsFit_Permutation (avail : nat) (ps qs : list LType) :
  ps ≡ₚ qs → paramsFit avail ps = paramsFit avail qs.
Proof.
  intros Hperm. apply eq_true_iff_eq.
  rewrite !paramsFit_iff, (totalNeeded_Permutation _ _ Hperm).
  split; intros [Hall Htotal]; (split; [|done]).
  - by apply (Permutation_Forall Hperm).
  - by apply (Permutation_Forall (Permutation_sym Hperm)).
Qed.

(** X5. A signature that is not classified stays so when parameters are
    added at its end; put the other way, every signature made of the
    first parameters of a classified signature is classified. *)
Theorem added_parameters_keep_failure
    (fillOut : CallInformation) (ret : LType) (ps qs : list LType) :
  (analyzeFunctionType fillOut {| getReturnType := ret; params := ps |}).1
  = false →
  (analyzeFunctionType fillOut
     {| getReturnType := ret; params := ps ++ qs |}).1 = false.
Proof.
  rewrite !analyzeFunctionType_return. simpl.
  destruct (registersNeeded ret) as [n|]; [|done].
  destruct (bool_decide (n ≤ 2)%nat); [|done]. simpl.
  intros Hps. apply not_true_is_false. intros Hfit. apply not_true_iff_false in Hps.
  apply Hps. apply paramsFit_iff. apply paramsFit_iff in Hfit as [Hall Htotal].
  rewrite totalNeeded_app in Htotal.
  apply Forall_app in Hall as [Hall _]. split; [done|lia].
Qed.

(** X6. The order of the parameter types does not matter: two signatures
    with the same return type and the same parameter types in another
    order get the same answer, and when they are classified the same
    registers. The result records how many registers the parameters take
    together, not which register belongs to which parameter. *)
Theorem parameter_order_does_not_matter
    (fillOut : CallInformation) (ret : LType) (ps qs : list LType) :
  ps ≡ₚ qs →
  (analyzeFunctionType fillOut {| getReturnType := ret; params := ps |}).1
  = (analyzeFunctionType fillOut {| getReturnType := ret; params := qs |}).1 ∧
  ((analyzeFunctionType fillOut {| getReturnType := ret; params := ps |}).1
   = true →
   analyzeFunctionType fillOut {| getReturnType := ret; params := ps |}
   = analyzeFunctionType fillOut {| getReturnType := ret; params := qs |}).
Proof.
  intros Hperm.
  assert (Hfst :
    (analyzeFunctionType fillOut {| getReturnType := ret; params := ps |}).1
    = (analyzeFunctionType fillOut {| getReturnType := ret; params := qs |}).1).
  { rewrite !analyzeFunctionType_return. simpl.
    by rewrite (paramsFit_Permutation 6 ps qs Hperm). }
  split; [done|]. intros Hps.
  assert (Hqs := Hps). rewrite Hfst in Hqs.
  destruct (analyzeFunctionType fillOut {| getReturnType := ret; params := ps |})
    as [ok1 out1] eqn:H1.
  destruct (analyzeFunctionType fillOut {| getReturnType := ret; params := qs |})
    as [ok2 out2] eqn:H2.
  simpl in Hps, Hqs. subst ok1 ok2. f_equal.
  apply analyzeFunctionType_success_inv in H1 as (n1 & Hn1 & _ & _ & Hr1 & Hp1).
  apply analyzeFunctionType_success_inv in H2 as (n2 & Hn2 & _ & _ & Hr2 & Hp2).
  simpl in *. rewrite Hn1 in Hn2. injection Hn2 as <-.
  rewrite (totalNeeded_Permutation _ _ Hperm) in Hp1.
  destruct out1, out2. simpl in *. congruence.
Qed.

(** X7. In [addEntriesForType] the cursor and the vector move together:
    the registers that left the cursor are exactly those whose entries
    were appended, in order, whatever the answer. A type outside the model
    takes none; an integer or pointer that is refused has taken every
    register that was left. *)
Theorem addEntriesForType_cursor_and_vector
    (into : list ValueInformation) (regIter : list string) (t : LType) :
  ∃ consumed,
    regIter = consumed ++ (addEntriesForType into regIter t).2 ∧
    (addEntriesForType into regIter t).1.2
    = into ++ registerEntries consumed ∧
    (registersNeeded t = None → consumed = []) ∧
    ((addEntriesForType into regIter t).1.1 = false →
     registersNeeded t ≠ None →
     (addEntriesForType into regIter t).2 = [] ∧ consumed = regIter).
Proof.
  rewrite addEntriesForType_spec.
  destruct (registersNeeded t) as [n|]; cbv zeta; simpl.
  - exists (take (n `min` length regIter) regIter).
    split; [by rewrite take_drop|]. split; [done|]. split; [done|].
    intros Hfalse _. apply bool_decide_eq_false in Hfalse.
    rewrite Nat.min_r by lia. by rewrite drop_all, firstn_all.
  - exists []. by rewrite app_nil_r.
Qed.

End StaticClassificationMore.

(** * Further properties of matches and of the offset test *)

Lemma string_length_append (p s : string) :
  String.length (p ++ s)%string = (String.length p + String.length s)%nat.
Proof. induction p as [|c p IH]; simpl; [done|]. by rewrite IH. Qed.

Lemma substr_short (s : string) (pos : nat) :
  (String.length s < pos)%nat → substr s pos = Fail OutOfRange.
Proof.
  revert s. induction pos as [|pos IH]; intros s Hlen; [lia|].
  destruct s as [|c s]; simpl in *; [done|]. apply IH. lia.
Qed.

Lemma substr_long (s : string) (pos : nat) :
  (pos ≤ String.length s)%nat → ∃ r, substr s pos = Ok r.
Proof.
  revert s. induction pos as [|pos IH]; intros s Hlen; [by exists s|].
  destruct s as [|c s]; simpl in *; [lia|]. apply IH. lia.
Qed.

(** X8. When [matches] answers [true], the target name has exactly six
    characters and the executable type exactly twelve: the names "x86" and
    "ELF 64" themselves, or any strings that merely start with them, are
    not matched. *)
Theorem matches_true_fixes_lengths (targetName executableType : string) :
  matches targetName executableType = Ok true →
  String.length targetName = 6%nat ∧ String.length executableType = 12%nat.
Proof.
  unfold matches. intros H.
  destruct (substr targetName 3) as [t|] eqn:Ht; [|done]. cbn [bindR] in H.
  destruct (String.eqb t "x86") eqn:Ex; [|done].
  destruct (substr executableType 6) as [e|] eqn:He; [|done]. cbn [bindR] in H.
  injection H as Ee. apply String.eqb_eq in Ex, Ee. subst t e.
  apply substr_Ok_inv in Ht as (p & Hp & ->).
  apply substr_Ok_inv in He as (q & Hq & ->).
  rewrite !string_length_append, Hp, Hq. done.
Qed.

Lemma matches_true_fixes_lengths_witness :
  matches "i38x86" "      ELF 64" = Ok true ∧
  String.length "i38x86" = 6%nat ∧ String.length "      ELF 64" = 12%nat.
Proof.
  split; [reflexivity|].
  exact (matches_true_fixes_lengths "i38x86" "      ELF 64" eq_refl).
Defined.

(** X9. The other outcomes of [matches]. A target name shorter than
    three characters makes [substr] throw. A name of three characters or
    more whose rest is not "x86" is answered [false] without the
    executable type being looked at, however short it is. When the rest is
    "x86", an executable type shorter than six characters makes [substr]
    throw. No assertion is involved. *)
Theorem matches_short_strings (targetName executableType : string) :
  ((String.length targetName < 3)%nat →
   matches targetName executableType = Fail OutOfRange) ∧
  (∀ p s, targetName = (p ++ s)%string → String.length p = 3%nat →
          s ≠ "x86" → matches targetName executableType = Ok false) ∧
  (∀ p, targetName = (p ++ "x86")%string → String.length p = 3%nat →
        (String.length executableType < 6)%nat →
        matches targetName executableType = Fail OutOfRange) ∧
  matches targetName executableType ≠ Fail AssertionFailure.
Proof.
  split; [|split; [|split]].
  - intros Hlen. unfold matches. by rewrite substr_short.
  - intros p s -> Hp Hs. unfold matches.
    assert (Ht : substr (p ++ s)%string 3 = Ok s)
      by (rewrite <- Hp; apply substr_app).
    rewrite Ht. cbn [bindR].
    by apply String.eqb_neq in Hs as ->.
  - intros p -> Hp He. unfold matches.
    assert (Ht : substr (p ++ "x86")%string 3 = Ok "x86")
      by (rewrite <- Hp; apply substr_app).
    rewrite Ht. cbn [bindR]. simpl String.eqb.
    by rewrite substr_short.
  - unfold matches.
    destruct (le_lt_dec 3 (String.length targetName)) as [Hle|Hlt].
    + destruct (substr_long _ _ Hle) as [t ->]. cbn [bindR].
      destruct (String.eqb t "x86"); [|done].
      destruct (le_lt_dec 6 (String.length executableType)) as [Hle'|Hlt'].
      * by destruct (substr_long _ _ Hle') as [e ->].
      * by rewrite substr_short.
    + by rewrite substr_short.
Qed.

Lemma matches_short_strings_witness :
  matches "x8" "ELF 64" = Fail OutOfRange ∧
  matches "x86_64" "" = Ok false ∧
  matches "i38x86" "ELF" = Fail OutOfRange.
Proof.
  split; [|split].
  - apply (proj1 (matches_short_strings "x8" "ELF 64")). simpl. lia.
  - apply (proj1 (proj2 (matches_short_strings "x86_64" "")) "x86" "_64");
      [reflexivity|reflexivity|discriminate].
  - apply (proj1 (proj2 (proj2 (matches_short_strings "i38x86" "ELF"))) "i38");
      [reflexivity|reflexivity|simpl; lia].
Defined.

(** X10. The offset test of the stack pass, [intOffset > 8] on the
    limited value read as a signed 64-bit integer, holds exactly for the
    constants whose unsigned value lies strictly between 8 and 2^63,
    whatever their width: a 64-bit constant from 2^63 on is read as
    negative, and a wider constant beyond 2^64 - 1 is limited to it and
    read as -1. *)
Theorem offset_test_iff (width value : N) :
  (8 <? make_signed (getLimitedValue (width, value)))%Z = true ↔
  8 < value < 2 ^ 63.
Proof.
  unfold make_signed, getLimitedValue. simpl.
  change (2 ^ 64 - 1) with 18446744073709551615.
  change (2 ^ 63) with 9223372036854775808.
  change (2 ^ 64)%Z with 18446744073709551616%Z.
  rewrite Z.ltb_lt.
  destruct (N.ltb_spec (N.min value 18446744073709551615) 9223372036854775808);
    lia.
Qed.

(** * Further properties of the dataflow analysis *)

Section DataflowMore.
Context `{TI : TargetInfo}.

Lemma fmap_bind_replicate {A B} (f : A → B) (names : list string)
    (cnt : string → nat) (g : string → A) :
  f <$> (name ← names; replicate (cnt name) (g name))
  = (name ← names; replicate (cnt name) (f (g name))).
Proof.
  induction names as [|n names IH]; [done|].
  by rewrite !bind_cons, fmap_app, fmap_replicate, IH.
Qed.

(** X11. Every parameter that [analyzeFunction] adds is an integer
    register, the largest enclosing register of one of rdi, rsi, rdx, rcx,
    r8, r9, and every return value it adds is an integer register: no
    stack slot and no floating-point register is ever reported, for any
    function. What [callInfo] held before stays in front. *)
Theorem analyzeFunction_adds_integer_registers_only
    (registry : ParameterRegistry) (callInfo ci : CallInformation)
    (f : Function) :
  analyzeFunction registry callInfo f = Ok ci →
  ∃ ps rs,
    parameters ci = parameters callInfo ++ (IntegerRegister <$> ps) ∧
    returnValues ci = returnValues callInfo ++ (IntegerRegister <$> rs) ∧
    Forall (λ r, r ∈ parameterRegister <$> parameterRegisters) ps.
Proof.
  rewrite analyzeFunction_shape.
  destruct (hasRegisterFileArgument f); [|done]. intros [= <-]. simpl.
  rewrite stackParameters_nil, app_nil_r, registerParameters_blocks.
  set (cnt := λ name,
    length (entryLoads (getMemorySSA registry f) f
              (registerGEPs f (VArgument 0)) (parameterRegister name))).
  exists (name ← parameterRegisters; replicate (cnt name) (parameterRegister name)),
         (ipaFindUsedReturns registry f
            (usedReturns f (registerGEPs f (VArgument 0)))).
  split; [by rewrite fmap_bind_replicate|]. split; [done|].
  apply Forall_forall. intros r (name & Hin & Hname)%list_elem_of_bind.
  apply elem_of_replicate in Hin as [-> _].
  exact (list_elem_of_fmap_2 parameterRegister parameterRegisters name Hname).
Qed.

Lemma entryLoads_Permutation mssa (f : Function) geps geps' r :
  geps ≡ₚ geps' →
  length (entryLoads mssa f geps r) = length (entryLoads mssa f geps' r).
Proof.
  intros Hperm. unfold entryLoads, equal_range.
  apply Permutation_length, bind_Permutation.
  by apply filter_Permutation.
Qed.

Lemma storeUsers_Permutation (f : Function) geps geps' r :
  geps ≡ₚ geps' →
  length (storeUsers f geps r) = length (storeUsers f geps' r).
Proof.
  intros Hperm. unfold storeUsers, equal_range.
  apply Permutation_length, bind_Permutation.
  by apply filter_Permutation.
Qed.

(** X12. The three passes do not depend on the order in which the
    multimap of access paths hands out its pairs: on two listings of the
    same pairs they produce the same parameters and the same candidates,
    in the same order. *)
Theorem multimap_order_does_not_matter (mssa : MemorySSA) (f : Function)
    (geps geps' : list (TargetRegisterInfo * Value)) :
  geps ≡ₚ geps' →
  registerParameters mssa f geps = registerParameters mssa f geps' ∧
  stackParameters f geps = stackParameters f geps' ∧
  usedReturns f geps = usedReturns f geps'.
Proof.
  intros Hperm. split; [|split].
  - rewrite !registerParameters_blocks.
    apply bind_ext_in. intros name _.
    by rewrite (entryLoads_Permutation mssa f geps geps' _ Hperm).
  - by rewrite !stackParameters_nil.
  - rewrite !usedReturns_blocks.
    apply bind_ext_in. intros name _.
    by rewrite (storeUsers_Permutation f geps geps' _ Hperm).
Qed.

Lemma entryLoads_no_load mssa (f : Function) r :
  Forall (λ i, isLoadInst i = false) (body f) →
  entryLoads mssa f (registerGEPs f (VArgument 0)) r = [].
Proof.
  intros Hall.
  destruct (entryLoads _ _ _ _) as [|load rest] eqn:Heq; [done|].
  assert (Hin : load ∈ entryLoads mssa f (registerGEPs f (VArgument 0)) r)
    by (rewrite Heq; left).
  apply elem_of_entryLoads in Hin as (g & l & _ & _ & Hlook & _).
  by apply (Forall_lookup_1 _ _ _ _ Hall) in Hlook.
Qed.

Lemma storeUsers_no_store (f : Function) r :
  Forall (λ i, isStoreInst i = false) (body f) →
  storeUsers f (registerGEPs f (VArgument 0)) r = [].
Proof.
  intros Hall.
  destruct (storeUsers _ _ _) as [|s rest] eqn:Heq; [done|].
  assert (Hin : s ∈ storeUsers f (registerGEPs f (VArgument 0)) r)
    by (rewrite Heq; left).
  apply elem_of_storeUsers in Hin as (g & n & v & q & _ & _ & Hlook & _).
  by apply (Forall_lookup_1 _ _ _ _ Hall) in Hlook.
Qed.

(** X13. A function without loads has no parameters; a function without
    stores has no candidate return register, and no return value when the
    return-usage query keeps confirmed candidates. In particular a
    function with an empty body gets an empty [CallInformation]. *)
Theorem no_loads_no_parameters_no_stores_no_returns
    (registry : ParameterRegistry) (f : Function) (ci : CallInformation) :
  analyzeFunction registry emptyCallInformation f = Ok ci →
  (Forall (λ i, isLoadInst i = false) (body f) → parameters ci = []) ∧
  (Forall (λ i, isStoreInst i = false) (body f) →
   usedReturns f (registerGEPs f (VArgument 0)) = [] ∧
   (keepsConfirmedCandidates registry → returnValues ci = [])).
Proof.
  intros [Hparams Hrets]%analyzeFunction_Ok_inv. split.
  - intros Hall. rewrite Hparams, registerParameters_blocks.
    apply bind_nil_forall. intros name _.
    by rewrite entryLoads_no_load.
  - intros Hall.
    assert (Hnil : usedReturns f (registerGEPs f (VArgument 0)) = []).
    { rewrite usedReturns_blocks. apply bind_nil_forall. intros name _.
      by rewrite storeUsers_no_store. }
    split; [done|]. intros Hkeeps.
    specialize (Hkeeps f (usedReturns f (registerGEPs f (VArgument 0)))).
    rewrite Hnil in Hkeeps. rewrite Hrets, Hnil.
    by apply sublist_nil_r in Hkeeps as ->.
Qed.

End DataflowMore.

(** * The further properties at the concrete target *)

Lemma classified_signature_takes_table_prefixes_witness :
  analyzeFunctionType emptyCallInformation wide_signature
  = (true, x86CallInformation false ["rdi"; "rsi"; "rdx"; "rcx"] ["rax"; "rdx"]) ∧
  length (parameters
            (x86CallInformation false ["rdi"; "rsi"; "rdx"; "rcx"] ["rax"; "rdx"]))
  = (0 + totalNeeded (TI := x86TargetInfo false) (params wide_signature))%nat.
Proof.
  split; [reflexivity|].
  destruct (@classified_signature_takes_table_prefixes (x86TargetInfo false)
              emptyCallInformation
              (x86CallInformation false ["rdi"; "rsi"; "rdx"; "rcx"] ["rax"; "rdx"])
              wide_signature eq_refl)
    as (n & _ & _ & _ & _ & Hlen).
  exact Hlen.
Defined.

Lemma added_parameters_keep_failure_witness :
  (analyzeFunctionType (TI := x86TargetInfo false) emptyCallInformation
     {| getReturnType := VoidTy; params := replicate 9 i64 |}).1 = false ∧
  (analyzeFunctionType (TI := x86TargetInfo false) emptyCallInformation
     {| getReturnType := VoidTy; params := replicate 9 i64 ++ [DoubleTy] |}).1
  = false.
Proof.
  split; [reflexivity|].
  exact (@added_parameters_keep_failure (x86TargetInfo false)
           emptyCallInformation VoidTy (replicate 9 i64) [DoubleTy] eq_refl).
Defined.

Lemma parameter_order_does_not_matter_witness :
  analyzeFunctionType (TI := x86TargetInfo false) emptyCallInformation
    {| getReturnType := i64; params := [IntegerType 128; i64] |}
  = analyzeFunctionType (TI := x86TargetInfo false) emptyCallInformation
      {| getReturnType := i64; params := [i64; IntegerType 128] |}.
Proof.
  exact (proj2 (@parameter_order_does_not_matter (x86TargetInfo false)
                  emptyCallInformation i64 [IntegerType 128; i64]
                  [i64; IntegerType 128] (perm_swap _ _ _)) eq_refl).
Defined.

Lemma analyzeFunction_adds_integer_registers_only_witness :
  analyzeFunction (x86Registry false (λ _, true)) emptyCallInformation
    reads_rdx_then_rdi
  = Ok (x86CallInformation false ["rdi"; "rdx"] []) ∧
  ∃ ps rs,
    parameters (x86CallInformation false ["rdi"; "rdx"] [])
    = [] ++ (IntegerRegister <$> ps) ∧
    returnValues (x86CallInformation false ["rdi"; "rdx"] [])
    = [] ++ (IntegerRegister <$> rs) ∧
    Forall (λ r, r ∈ parameterRegister <$> parameterRegisters) ps.
Proof.
  split; [reflexivity|].
  exact (analyzeFunction_adds_integer_registers_only
           (x86Registry false (λ _, true)) emptyCallInformation
           (x86CallInformation false ["rdi"; "rdx"] [])
           reads_rdx_then_rdi eq_refl).
Defined.

Lemma multimap_order_does_not_matter_witness :
  registerParameters (TI := x86TargetInfo false)
    (straightLineMemorySSA reads_rdx_then_rdi) reads_rdx_then_rdi
    [("rdx", VInstruction 0); ("rdi", VInstruction 2)]
  = registerParameters (TI := x86TargetInfo false)
      (straightLineMemorySSA reads_rdx_then_rdi) reads_rdx_then_rdi
      [("rdi", VInstruction 2); ("rdx", VInstruction 0)].
Proof.
  exact (proj1 (@multimap_order_does_not_matter (x86TargetInfo false)
                  (straightLineMemorySSA reads_rdx_then_rdi) reads_rdx_then_rdi
                  [("rdx", VInstruction 0); ("rdi", VInstruction 2)]
                  [("rdi", VInstruction 2); ("rdx", VInstruction 0)]
                  (perm_swap _ _ _))).
Defined.

Lemma no_loads_no_parameters_no_stores_no_returns_witness :
  analyzeFunction (x86Registry false (λ _, true)) emptyCallInformation
    empty_function
  = Ok (x86CallInformation false [] []) ∧
  parameters (x86CallInformation false [] []) = [] ∧
  returnValues (x86CallInformation false [] []) = [].
Proof.
  split; [reflexivity|].
  pose proof (no_loads_no_parameters_no_stores_no_returns
                (x86Registry false (λ _, true)) empty_function
                (x86CallInformation false [] []) eq_refl) as [Hp Hr].
  split.
  - exact (Hp (List.Forall_nil _)).
  - exact (proj2 (Hr (List.Forall_nil _)) (x86Registry_keeps false (λ _, true))).
Defined.
